(** * Tool-Use Agent: the chat client and the orchestration core

    The development has two halves.

    - [Js], [Api] and [Chat] embed the TypeScript client of the repository:
      the [AgentService] class (queryAgent, deleteConversation, checkHealth)
      and the event handlers of the [Chat] component (handleSubmit,
      startNewConversation).  Asynchronous handlers are written in a small
      effect monad that threads the component state, logs the observable
      events (HTTP requests, console output) and propagates exceptions.

    - [Core] models the backend orchestration engine (Conversation Store,
      Result Cache, Tool Dispatcher, Orchestration Loop).  The backend
      sources are not part of the client tree, so those definitions follow
      the specification text and say so. *)

From stdpp Require Import base option list strings gmap.
From Stdlib Require Import Ascii Lia.

Local Open Scope string_scope.

(* ===================================================================== *)
(** ** JavaScript values and the few primitives the client relies on      *)
(* ===================================================================== *)

Module Js.

(** JSON documents: what [JSON.stringify] produces, what [response.json()]
    yields and what values typed [unknown] may hold.  A number is held by
    the text JavaScript prints for it ([String(n)], which is also what
    [JSON.stringify] writes). *)
#[warnings="-register-all"]
Inductive json : Type :=
| JNull
| JBool (b : bool)
| JNum (literal : string)
| JStr (s : string)
| JArr (items : list json)
| JObj (fields : list (string * json)).

(** [new Error(message)]. *)
Record Error : Type := mkError { message : string }.

(** How a JavaScript computation ends: by returning or by throwing. *)
Inductive completion (A : Type) : Type :=
| Returned (a : A)
| Thrown (e : Error).
Arguments Returned {A} a.
Arguments Thrown {A} e.

(** Truthiness of a string: only the empty string is falsy. *)
Definition truthy (s : string) : bool :=
  match s with
  | EmptyString => false
  | String _ _ => true
  end.

(** Truthiness of a [string | null | undefined] value. *)
Definition truthy_opt (o : option string) : bool :=
  match o with
  | Some s => truthy s
  | None => false
  end.

(** [a || b] where [a : string | undefined] and [b : string]. *)
Definition or_else (a : option string) (b : string) : string :=
  match a with
  | Some s => if truthy s then s else b
  | None => b
  end.

(** [a || undefined] where [a : string | null]. *)
Definition or_undefined (a : option string) : option string :=
  match a with
  | Some s => if truthy s then Some s else None
  | None => None
  end.

(** ECMAScript WhiteSpace and LineTerminator code points, for strings
    whose code units are below 256: TAB, LF, VT, FF, CR, SP, NBSP. *)
Definition is_white_space (c : ascii) : bool :=
  let n := nat_of_ascii c in
  (n =? 9)%nat || (n =? 10)%nat || (n =? 11)%nat || (n =? 12)%nat
  || (n =? 13)%nat || (n =? 32)%nat || (n =? 160)%nat.

Fixpoint trimStart (s : string) : string :=
  match s with
  | EmptyString => EmptyString
  | String c rest => if is_white_space c then trimStart rest else s
  end.

Definition reverse_string (s : string) : string :=
  String.string_of_list_ascii (rev (String.list_ascii_of_string s)).

Definition trimEnd (s : string) : string :=
  reverse_string (trimStart (reverse_string s)).

(** [String.prototype.trim]. *)
Definition trim (s : string) : string := trimEnd (trimStart s).

(** [JSON.stringify] of an object literal: properties whose value is
    [undefined] are left out, the others keep their order. *)
Fixpoint JSON_stringify (props : list (string * option json))
  : list (string * json) :=
  match props with
  | [] => []
  | (k, Some v) :: rest => (k, v) :: JSON_stringify rest
  | (_, None) :: rest => JSON_stringify rest
  end.

(** [TypeError] of a property read on [null]. *)
Definition TypeError_null (name : string) : Error :=
  mkError ("Cannot read properties of null (reading '" +:+ name +:+ "')").

(** The own property [name] of an object read from JSON; when a key is
    repeated the last one counts, as in [JSON.parse]. *)
Fixpoint lookup_property (fields : list (string * json)) (name : string)
  : option json :=
  match fields with
  | [] => None
  | (k, v) :: rest =>
      match lookup_property rest name with
      | Some w => Some w
      | None => if String.eqb k name then Some v else None
      end
  end.

(** [value.name] for a value read from JSON and a [name] that no
    prototype defines: it throws on [null], reads the property of an
    object, and is [undefined] on anything else. *)
Definition get_property (value : json) (name : string)
  : completion (option json) :=
  match value with
  | JNull => Thrown (TypeError_null name)
  | JObj fields => Returned (lookup_property fields name)
  | _ => Returned None
  end.

(** Whether the text of a number denotes zero: no digit from 1 to 9
    before an exponent. *)
Fixpoint zero_literal (literal : string) : bool :=
  match literal with
  | EmptyString => true
  | String c rest =>
      let n := nat_of_ascii c in
      if (n =? 101)%nat || (n =? 69)%nat then true
      else if (49 <=? n)%nat && (n <=? 57)%nat then false
      else zero_literal rest
  end.

(** Truthiness of a value read from JSON: [null], [false], zero and the
    empty string are falsy, everything else (arrays and objects too) is
    truthy. *)
Definition js_truthy (v : json) : bool :=
  match v with
  | JNull => false
  | JBool b => b
  | JNum literal => negb (zero_literal literal)
  | JStr s => truthy s
  | JArr _ => true
  | JObj _ => true
  end.

(** Truthiness of a value that may be [undefined]. *)
Definition js_truthy_opt (o : option json) : bool :=
  match o with
  | Some v => js_truthy v
  | None => false
  end.

(** The TypeError of a conversion to a primitive that finds no usable
    [toString] or [valueOf]. *)
Definition TypeError_primitive : Error :=
  mkError "Cannot convert object to primitive value".

(** [String(v)]: strings as they are, arrays as their elements joined by
    commas ([null] elements as nothing), objects as [[object Object]].
    An object read from JSON that has a property [toString] of its own
    hides [Object.prototype.toString] behind a value that is not a
    function, and its conversion throws; elements are converted from
    left to right. *)
Fixpoint ToString (v : json) : completion string :=
  match v with
  | JNull => Returned "null"
  | JBool true => Returned "true"
  | JBool false => Returned "false"
  | JNum literal => Returned literal
  | JStr s => Returned s
  | JArr items =>
      (fix join (l : list json) : completion string :=
         match l with
         | [] => Returned ""
         | x :: rest =>
             match (match x with
                    | JNull => Returned ""
                    | _ => ToString x
                    end) with
             | Thrown e => Thrown e
             | Returned head =>
                 match rest with
                 | [] => Returned head
                 | _ :: _ =>
                     match join rest with
                     | Thrown e => Thrown e
                     | Returned tail => Returned (head +:+ "," +:+ tail)
                     end
                 end
             end
         end) items
  | JObj fields =>
      match lookup_property fields "toString" with
      | Some _ => Thrown TypeError_primitive
      | None => Returned "[object Object]"
      end
  end.

(** [a || b] where [a] is a value read from JSON, or [undefined], and
    [b] a string. *)
Definition or_default (a : option json) (b : string) : json :=
  match a with
  | Some v => if js_truthy v then v else JStr b
  | None => JStr b
  end.

(** [new Error(v)]: the message is [String(v)], whose failure is the
    failure of the construction. *)
Definition new_Error (v : json) : completion Error :=
  match ToString v with
  | Thrown e => Thrown e
  | Returned m => Returned (mkError m)
  end.

End Js.

(* ===================================================================== *)
(** ** The effect monad of the client                                     *)
(* ===================================================================== *)

Module Eff.
Import Js.

Inductive Method : Type := GET | POST | DELETE.

(** The [fetch] call as issued: URL and init object. *)
Record Request : Type := mkRequest {
  url : string;
  method : Method;
  headers : list (string * string);
  body : option json
}.

(** Observable effects of the client, in program order. *)
Inductive Event : Type :=
| EvFetch (req : Request)
| EvConsoleError (label : string) (e : Error)
| EvPreventDefault.

(** A computation over a state [S]: it may update the state, append to
    the event log, and return or throw. *)
Definition eff (S A : Type) : Type :=
  S -> list Event -> completion A * S * list Event.

Definition ret {S A} (a : A) : eff S A :=
  fun s log => (Returned a, s, log).

Definition throw {S A} (e : Error) : eff S A :=
  fun s log => (Thrown e, s, log).

Definition bind {S A B} (m : eff S A) (k : A -> eff S B) : eff S B :=
  fun s log =>
    match m s log with
    | (Returned a, s', log') => k a s' log'
    | (Thrown e, s', log') => (Thrown e, s', log')
    end.

(** [try { m } catch (error) { h error }]. *)
Definition try_catch {S A} (m : eff S A) (h : Error -> eff S A) : eff S A :=
  fun s log =>
    match m s log with
    | (Returned a, s', log') => (Returned a, s', log')
    | (Thrown e, s', log') => h e s' log'
    end.

(** [try { m } finally { f }]: [f] runs either way; the completion of
    [m] is kept unless [f] itself throws. *)
Definition try_finally {S A} (m : eff S A) (f : eff S unit) : eff S A :=
  fun s log =>
    match m s log with
    | (c, s', log') =>
        match f s' log' with
        | (Returned _, s'', log'') => (c, s'', log'')
        | (Thrown e, s'', log'') => (Thrown e, s'', log'')
        end
    end.

Definition emit {S} (ev : Event) : eff S unit :=
  fun s log => (Returned tt, s, (log ++ [ev])%list).

Definition modify {S} (f : S -> S) : eff S unit :=
  fun s log => (Returned tt, f s, log).

(** Awaiting a promise that settles with [c]; the same lifting serves
    for an expression whose evaluation completes with [c]. *)
Definition await {S A} (c : completion A) : eff S A :=
  fun s log => (c, s, log).

Definition console_error {S} (label : string) (e : Error) : eff S unit :=
  emit (EvConsoleError label e).

#[export] Instance eff_ret {S} : MRet (eff S) := fun A => @ret S A.
#[export] Instance eff_bind {S} : MBind (eff S) := fun A B k m => bind m k.

(** Run a computation from a state with an empty log. *)
Definition exec {S A} (m : eff S A) (s : S) : completion A * S * list Event :=
  m s [].

End Eff.

(* ===================================================================== *)
(** ** services/api: the AgentService class                               *)
(* ===================================================================== *)

Module Api.
Import Js Eff.

(** One element of [AgentResponse.tool_calls]. *)
Record ToolCallView : Type := mkToolCallView {
  tool_name : string;
  tool_input : list (string * json);
  tool_output : json
}.

(** [interface AgentResponse]: [tool_calls] is the only optional field. *)
Record AgentResponse : Type := mkAgentResponse {
  response : string;
  conversation_id : string;
  tool_calls : option (list ToolCallView)
}.

(** A [Response] as the call sites use it: the [ok] flag and the outcome
    of [response.json()], which rejects when the body is not JSON.  The
    body of an ok response has the type the call site reads it at; the
    body of any other response is whatever JSON value the server sent. *)
Inductive Response (A : Type) : Type :=
| RespOk (json_ : completion A)
| RespNotOk (json_ : completion json).
Arguments RespOk {A} json_.
Arguments RespNotOk {A} json_.

Definition ok {A} (r : Response A) : bool :=
  match r with
  | RespOk _ => true
  | RespNotOk _ => false
  end.

(** [fetch] seen from the three call sites: the promise rejects (network
    failure) or resolves with a response. *)
Record Net : Type := mkNet {
  fetch_agent : Request -> completion (Response AgentResponse);
  fetch_delete : Request -> completion (Response unit);
  fetch_health : Request -> completion (Response json)
}.

(** What the error branch of a request throws for the error body
    [errorData]: the [TypeError] of reading [detail] on [null], or
    [new Error(errorData.detail || fallback)]. *)
Definition rejection (errorData : json) (fallback : string) : Error :=
  match get_property errorData "detail" with
  | Thrown e => e
  | Returned detail =>
      match new_Error (or_default detail fallback) with
      | Thrown e => e
      | Returned e => e
      end
  end.

Section AgentService.
(** [process.env.NEXT_PUBLIC_API_URL]. *)
Variable NEXT_PUBLIC_API_URL : option string.
Variable net : Net.
Context {S : Type}.

Definition API_BASE_URL : string :=
  or_else NEXT_PUBLIC_API_URL "http://localhost:8000".

Definition queryAgent_request (query : string)
    (conversationId : option string) : Request :=
  {| url := API_BASE_URL +:+ "/api/agent";
     method := POST;
     headers := [("Content-Type", "application/json")];
     body := Some (JObj (JSON_stringify
               [("query", Some (JStr query));
                ("conversation_id", JStr <$> conversationId)])) |}.

Definition queryAgent (query : string) (conversationId : option string)
  : eff S AgentResponse :=
  try_catch
    (let req := queryAgent_request query conversationId in
     emit (EvFetch req) ;;
     resp ← await (fetch_agent net req);
     match resp with
     | RespNotOk json_ =>
         errorData ← await json_;
         detail ← await (get_property errorData "detail");
         error ← await (new_Error (or_default detail
                            "An error occurred while querying the agent."));
         throw error
     | RespOk json_ => await json_
     end)
    (fun error =>
       console_error "Error querying agent:" error ;;
       throw error).

Definition deleteConversation_request (conversationId : string) : Request :=
  {| url := API_BASE_URL +:+ "/api/conversations/" +:+ conversationId;
     method := DELETE;
     headers := [];
     body := None |}.

Definition deleteConversation (conversationId : string) : eff S unit :=
  try_catch
    (let req := deleteConversation_request conversationId in
     emit (EvFetch req) ;;
     resp ← await (fetch_delete net req);
     match resp with
     | RespNotOk json_ =>
         errorData ← await json_;
         detail ← await (get_property errorData "detail");
         error ← await (new_Error (or_default detail
                            "An error occurred while deleting the conversation."));
         throw error
     | RespOk _ => ret tt
     end)
    (fun error =>
       console_error "Error deleting conversation:" error ;;
       throw error).

(** Result of [checkHealth]: [{isHealthy; apiKeyConfigured?}]. *)
Record Health : Type := mkHealth {
  isHealthy : bool;
  apiKeyConfigured : option json
}.

Definition checkHealth_request : Request :=
  {| url := API_BASE_URL +:+ "/health";
     method := GET;
     headers := [];
     body := None |}.

Definition checkHealth : eff S Health :=
  try_catch
    (emit (EvFetch checkHealth_request) ;;
     resp ← await (fetch_health net checkHealth_request);
     match resp with
     | RespOk json_ =>
         data ← await json_;
         api_key_configured ← await (get_property data "api_key_configured");
         ret {| isHealthy := true;
                apiKeyConfigured := api_key_configured |}
     | RespNotOk _ =>
         ret {| isHealthy := false; apiKeyConfigured := None |}
     end)
    (fun error =>
       console_error "Health check failed:" error ;;
       ret {| isHealthy := false; apiKeyConfigured := None |}).

End AgentService.

End Api.

(* ===================================================================== *)
(** ** components/Chat: component state and event handlers               *)
(* ===================================================================== *)

Module Chat.
Import Js Eff Api.

Inductive ChatRole : Type := user | assistant.

(** [interface ChatMessage]. *)
Record ChatMessage : Type := mkChatMessage {
  role : ChatRole;
  content : string;
  toolCalls : option (list ToolCallView)
}.

Inductive ApiStatus : Type := connecting | connected | error | warning.

(** The [useState] cells of the component. *)
Record ChatState : Type := mkChatState {
  messages : list ChatMessage;
  input : string;
  isLoading : bool;
  apiStatus : ApiStatus;
  conversationId : option string;
  statusMessage : option string
}.

(** State of a freshly mounted component. *)
Definition initialState : ChatState :=
  {| messages := []; input := ""; isLoading := false;
     apiStatus := connecting; conversationId := None;
     statusMessage := None |}.

(** The state setters; [setMessages] takes an updater of the live value. *)
Definition setMessages (f : list ChatMessage -> list ChatMessage)
  : eff ChatState unit :=
  modify (fun st =>
    {| messages := f (messages st); input := input st;
       isLoading := isLoading st; apiStatus := apiStatus st;
       conversationId := conversationId st;
       statusMessage := statusMessage st |}).

Definition setInput (v : string) : eff ChatState unit :=
  modify (fun st =>
    {| messages := messages st; input := v;
       isLoading := isLoading st; apiStatus := apiStatus st;
       conversationId := conversationId st;
       statusMessage := statusMessage st |}).

Definition setIsLoading (v : bool) : eff ChatState unit :=
  modify (fun st =>
    {| messages := messages st; input := input st;
       isLoading := v; apiStatus := apiStatus st;
       conversationId := conversationId st;
       statusMessage := statusMessage st |}).

Definition setApiStatus (v : ApiStatus) : eff ChatState unit :=
  modify (fun st =>
    {| messages := messages st; input := input st;
       isLoading := isLoading st; apiStatus := v;
       conversationId := conversationId st;
       statusMessage := statusMessage st |}).

Definition setConversationId (v : option string) : eff ChatState unit :=
  modify (fun st =>
    {| messages := messages st; input := input st;
       isLoading := isLoading st; apiStatus := apiStatus st;
       conversationId := v;
       statusMessage := statusMessage st |}).

Definition setStatusMessage (v : option string) : eff ChatState unit :=
  modify (fun st =>
    {| messages := messages st; input := input st;
       isLoading := isLoading st; apiStatus := apiStatus st;
       conversationId := conversationId st;
       statusMessage := v |}).

(** The assistant message shown when the agent request throws. *)
Definition errorMessage : ChatMessage :=
  {| role := assistant;
     content := "Sorry, I encountered an error while processing your request. Please try again.";
     toolCalls := None |}.

Section Handlers.
Variable NEXT_PUBLIC_API_URL : option string.
Variable net : Net.

(** The handlers are closures over the state of the render that created
    them: [render] is what [input] and [conversationId] denote in their
    bodies, while the setters act on the live state. *)
Variable render : ChatState.

Definition handleSubmit : eff ChatState unit :=
  emit EvPreventDefault ;;
  if negb (truthy (trim (input render))) then mret tt
  else
    let userMessage :=
      {| role := user; content := input render; toolCalls := None |} in
    setMessages (fun prev => prev ++ [userMessage])%list ;;
    let currentInput := input render in
    setInput "" ;;
    setIsLoading true ;;
    try_finally
      (try_catch
         (response ← queryAgent NEXT_PUBLIC_API_URL net currentInput
                       (or_undefined (conversationId render));
          (if truthy (conversation_id response)
              && negb (truthy_opt (conversationId render))
           then setConversationId (Some (conversation_id response))
           else mret tt) ;;
          let assistantMessage :=
            {| role := assistant;
               content := Api.response response;
               toolCalls := tool_calls response |} in
          setMessages (fun prev => prev ++ [assistantMessage])%list)
         (fun error =>
            console_error "Error querying agent:" error ;;
            setMessages (fun prev => prev ++ [errorMessage])%list))
      (setIsLoading false).

Definition startNewConversation : eff ChatState unit :=
  match conversationId render with
  | Some id =>
      if truthy id then
        try_catch
          (deleteConversation NEXT_PUBLIC_API_URL net id)
          (fun error =>
             console_error "Error deleting conversation:" error)
      else mret tt
  | None => mret tt
  end ;;
  setConversationId None ;;
  setMessages (fun _ => []).

(** The [checkApiHealth] closure of the mount effect. *)
Definition checkApiHealth : eff ChatState unit :=
  try_catch
    (healthCheck ← checkHealth NEXT_PUBLIC_API_URL net;
     if negb (isHealthy healthCheck) then
       setApiStatus error ;;
       setStatusMessage (Some "Cannot connect to backend API")
     else if negb (js_truthy_opt (apiKeyConfigured healthCheck)) then
       setApiStatus warning ;;
       setStatusMessage
         (Some "API key not configured. Agent functionality limited.")
     else
       setApiStatus connected ;;
       setStatusMessage None)
    (fun _ =>
       setApiStatus error ;;
       setStatusMessage (Some "Cannot connect to backend API")).

End Handlers.

(** An event handler invoked on the state it was rendered from. *)
Definition fire (h : ChatState -> eff ChatState unit) (st : ChatState)
  : completion unit * ChatState * list Event :=
  exec (h st) st.

(** The user types [text] into the input box. *)
Definition typeText (text : string) (st : ChatState) : ChatState :=
  {| messages := messages st; input := text;
     isLoading := isLoading st; apiStatus := apiStatus st;
     conversationId := conversationId st;
     statusMessage := statusMessage st |}.

(** One turn of the chat: the user types [text] and submits; [net] is the
    network as it behaves during that turn. *)
Definition turn (env : option string) (text : string) (net : Net)
    (st : ChatState) : ChatState * list Event :=
  match fire (handleSubmit env net) (typeText text st) with
  | (_, st', log) => (st', log)
  end.

(** Successive turns, each against its own network behaviour. *)
Fixpoint turns (env : option string) (script : list (string * Net))
    (st : ChatState) : ChatState * list Event :=
  match script with
  | [] => (st, [])
  | (text, net) :: rest =>
      match turn env text net st with
      | (st', log) =>
          match turns env rest st' with
          | (st'', log') => (st'', (log ++ log')%list)
          end
      end
  end.

(** A logged event is consistent with the held conversation id [id]:
    if it is a request, it is an agent request that carries [id]. *)
Definition carries_id (env : option string) (id : string) (ev : Event)
  : Prop :=
  match ev with
  | EvFetch req => ∃ q, req = queryAgent_request env q (Some id)
  | _ => True
  end.

End Chat.

(* ===================================================================== *)
(** ** components/Chat: what the component renders, and its event loop    *)
(* ===================================================================== *)

Module Ui.
Import Js Eff Api Chat.

(** [getToolIcon] of [renderToolUsage]: a [switch] on the tool name. *)
Definition getToolIcon (toolName : string) : string :=
  if String.eqb toolName "get_weather" then "/globe.svg"
  else if String.eqb toolName "search_web" then "/window.svg"
  else if String.eqb toolName "calculate" then "/file.svg"
  else if String.eqb toolName "lookup_definition" then "/file.svg"
  else "/file.svg".

(** [renderMessage]: [const isUser = message.role === 'user']. *)
Definition isUser (m : ChatMessage) : bool :=
  match role m with
  | user => true
  | assistant => false
  end.

(** The name shown in the message header. *)
Definition authorLabel (m : ChatMessage) : string :=
  if isUser m then "You" else "Assistant".

(** The guard of the "Tools Used" block:
    [message.toolCalls && message.toolCalls.length > 0]. *)
Definition showsToolCalls (m : ChatMessage) : bool :=
  match toolCalls m with
  | Some calls => (0 <? length calls)%nat
  | None => false
  end.

(** The icons of the tool calls rendered under a message, in order. *)
Definition renderedToolIcons (m : ChatMessage) : list string :=
  if showsToolCalls m then
    match toolCalls m with
    | Some calls => (fun t => getToolIcon (tool_name t)) <$> calls
    | None => []
    end
  else [].

(** [disabled={isLoading || apiStatus === 'error'}] of the text input and
    of the submit button. *)
Definition formDisabled (st : ChatState) : bool :=
  isLoading st
  || match apiStatus st with
     | error => true
     | _ => false
     end.

(** [{isLoading ? 'Thinking...' : 'Send'}]. *)
Definition submitLabel (st : ChatState) : string :=
  if isLoading st then "Thinking..." else "Send".

(** [disabled={messages.length === 0}] of the New Conversation button;
    the same test selects the welcome panel. *)
Definition newConversationDisabled (st : ChatState) : bool :=
  (length (messages st) =? 0)%nat.


(** *** handleSubmit around its suspension point

    [handleSubmit] runs synchronously up to [await fetch(...)] inside
    [queryAgent]: the request has been issued and the handler is
    suspended until the promise settles; other handlers may run in
    between.  [handleSubmit_sync] is the part before the suspension,
    [handleSubmit_resume] the part after it. *)

Section Suspension.
Variable NEXT_PUBLIC_API_URL : option string.
Variable render : ChatState.

(** [queryAgent] from the point where the [fetch] promise settles. *)
Definition queryAgent_settle {S : Type}
    (outcome : completion (Response AgentResponse)) : eff S AgentResponse :=
  try_catch
    (resp ← await outcome;
     match resp with
     | RespNotOk json_ =>
         errorData ← await json_;
         detail ← await (get_property errorData "detail");
         error ← await (new_Error (or_default detail
                            "An error occurred while querying the agent."));
         throw error
     | RespOk json_ => await json_
     end)
    (fun error =>
       console_error "Error querying agent:" error ;;
       throw error).

(** Up to the suspension: returns the request that is in flight, or
    nothing when the input was blank. *)
Definition handleSubmit_sync : eff ChatState (option Request) :=
  emit EvPreventDefault ;;
  if negb (truthy (trim (input render))) then mret None
  else
    let userMessage :=
      {| role := user; content := input render; toolCalls := None |} in
    setMessages (fun prev => prev ++ [userMessage])%list ;;
    let currentInput := input render in
    setInput "" ;;
    setIsLoading true ;;
    let req := queryAgent_request NEXT_PUBLIC_API_URL currentInput
                 (or_undefined (conversationId render)) in
    emit (EvFetch req) ;;
    mret (Some req).

(** From the moment the promise settles with [outcome]. *)
Definition handleSubmit_resume
    (outcome : completion (Response AgentResponse)) : eff ChatState unit :=
  try_finally
    (try_catch
       (response ← queryAgent_settle outcome;
        (if truthy (conversation_id response)
            && negb (truthy_opt (conversationId render))
         then setConversationId (Some (conversation_id response))
         else mret tt) ;;
        let assistantMessage :=
          {| role := assistant;
             content := Api.response response;
             toolCalls := tool_calls response |} in
        setMessages (fun prev => prev ++ [assistantMessage])%list)
       (fun error =>
          console_error "Error querying agent:" error ;;
          setMessages (fun prev => prev ++ [errorMessage])%list))
    (setIsLoading false).

End Suspension.

(** The user submits from state [st]; while the request is pending the
    New Conversation button is pressed and runs to its end (its delete
    request goes through [netReset] and settles first); then the agent
    request settles as [net] decides. *)
Definition submitResetReply (env : option string) (net netReset : Net)
    (st : ChatState) : completion unit * ChatState * list Event :=
  match exec (handleSubmit_sync env st) st with
  | (Returned (Some req), pending, log1) =>
      match startNewConversation env netReset pending pending log1 with
      | (_, cleared, log2) =>
          handleSubmit_resume st (fetch_agent net req) cleared log2
      end
  | (Returned None, st', log1) => (Returned tt, st', log1)
  | (Thrown e, st', log1) => (Thrown e, st', log1)
  end.

(** *** The events of the component, one at a time *)

(** What can happen to the component: the user edits the input box,
    submits the form, presses New Conversation, or the health poll of
    the mount effect fires. *)
Inductive Action : Type :=
| Typing (text : string)
| Submit
| NewConversation
| HealthCheck.

(** One event handled to completion; [net] is the network during it. *)
Definition act (env : option string) (a : Action) (net : Net)
    (st : ChatState) : ChatState * list Event :=
  match a with
  | Typing text => (typeText text st, [])
  | Submit =>
      match fire (handleSubmit env net) st with
      | (_, st', log) => (st', log)
      end
  | NewConversation =>
      match fire (startNewConversation env net) st with
      | (_, st', log) => (st', log)
      end
  | HealthCheck =>
      match exec (checkApiHealth env net) st with
      | (_, st', log) => (st', log)
      end
  end.

(** A history of events. *)
Fixpoint acts (env : option string) (script : list (Action * Net))
    (st : ChatState) : ChatState * list Event :=
  match script with
  | [] => (st, [])
  | (a, net) :: rest =>
      match act env a net st with
      | (st', log) =>
          match acts env rest st' with
          | (st'', log') => (st'', (log ++ log')%list)
          end
      end
  end.

(** The chat reads user, assistant, user, assistant, ... *)
Fixpoint alternating (ms : list ChatMessage) : bool :=
  match ms with
  | [] => true
  | u :: rest =>
      match rest with
      | [] => false
      | a :: rest' => isUser u && negb (isUser a) && alternating rest'
      end
  end.

(** The id a turn makes the client adopt when none is held: the id of an
    answered, non-blank turn, if it is not empty. *)
Definition adopts (env : option string) (t : string * Net) : option string :=
  if truthy (trim t.1) then
    match fetch_agent t.2 (queryAgent_request env t.1 None) with
    | Returned (RespOk (Returned r)) =>
        if truthy (conversation_id r) then Some (conversation_id r) else None
    | _ => None
    end
  else None.

(** The first id adopted along a script of turns. *)
Fixpoint first_adopted (env : option string) (script : list (string * Net))
    : option string :=
  match script with
  | [] => None
  | t :: rest =>
      match adopts env t with
      | Some id => Some id
      | None => first_adopted env rest
      end
  end.

(** The shape of the state between two events: nothing is loading, the
    chat alternates, a held id is not empty and comes with a chat that is
    not empty, and the status message is the one of the status. *)
Definition settled (st : ChatState) : Prop :=
  isLoading st = false
  ∧ alternating (messages st) = true
  ∧ match conversationId st with
    | Some id => id ≠ "" ∧ messages st ≠ []
    | None => True
    end
  ∧ statusMessage st =
      match apiStatus st with
      | connecting | connected => None
      | error => Some "Cannot connect to backend API"
      | warning =>
          Some "API key not configured. Agent functionality limited."
      end.

(** Agent requests and delete requests in an event log. *)
Definition is_request (m : Method) (ev : Event) : bool :=
  match ev with
  | EvFetch req =>
      match method req, m with
      | GET, GET | POST, POST | DELETE, DELETE => true
      | _, _ => false
      end
  | _ => false
  end.

(** Whether a string has a character that is not white space. *)
Definition has_content (s : string) : bool :=
  existsb (fun c => negb (is_white_space c)) (String.list_ascii_of_string s).

End Ui.

(* ===================================================================== *)
(** ** The orchestration core (backend)                                   *)
(* ===================================================================== *)

Module Core.
Import Js.
Local Open Scope nat_scope.
Local Open Scope list_scope.

(** Fallible operations of the core. *)
Inductive result (E A : Type) : Type :=
| Ok (a : A)
| Err (e : E).
Arguments Ok {E A} a.
Arguments Err {E A} e.

(** *** Data model *)

(** Modelled from the spec: the backend sources are missing; section 3
    gives Message roles [user | assistant | tool]. *)
Inductive Role : Type := user | assistant | tool.

(** Modelled from the spec: tool input is a mapping from string to a
    dynamically-typed value; kept in request order so that
    canonicalization has something to normalize. *)
Definition ToolInput : Type := list (string * json).

(** Modelled from the spec: the failure kinds of section 7 that a
    ToolResult can carry. *)
Inductive FailureKind : Type :=
| ToolNotFound
| InvalidToolInput
| ToolExecutionFailed
| ToolTimeout.

(** Modelled from the spec: a ToolResult is either a success payload or
    a failure descriptor (kind + message). *)
Inductive ToolResult : Type :=
| Success (payload : json)
| Failure (kind : FailureKind) (message : string).

Definition is_success (r : ToolResult) : bool :=
  match r with
  | Success _ => true
  | Failure _ _ => false
  end.

(** Modelled from the spec: one element of a ToolRequest decision,
    a tool call that is still pending. *)
Record PendingCall : Type := mkPendingCall {
  req_tool : string;
  req_input : ToolInput
}.

(** Modelled from the spec: a resolved ToolCall (tool name, input
    parameters, resulting ToolResult). *)
Record ToolCall : Type := mkToolCall {
  tool_name : string;
  tool_input : ToolInput;
  tool_result : ToolResult
}.

(** Modelled from the spec: Message of section 3. *)
Record Message : Type := mkMessage {
  role : Role;
  content : string;
  tool_calls : list ToolCall
}.

(** Modelled from the spec: Conversation of section 3; the id is the key
    under which the store holds it. *)
Record Conversation : Type := mkConversation {
  messages : list Message;
  created_at : nat;
  last_activity : nat
}.

(** Modelled from the spec: CacheEntry of section 3; the key (tool name
    and canonicalized input) is the key of the cache map. *)
Record CacheEntry : Type := mkCacheEntry {
  value : json;
  expiry : nat
}.

(** Modelled from the spec: the error taxonomy visible to the host is
    [NotFound] (unknown conversation id). *)
Inductive CoreError : Type := NotFound.

(** *** Conversation Store (section 4.1) *)

Module ConversationStore.

(** Modelled from the spec: [create() -> id]; the id is opaque and
    server-generated, here by a generator over the ids in use. *)
Definition create (new_id : gset string -> string) (now : nat)
    (s : gmap string Conversation) : string * gmap string Conversation :=
  let id := new_id (dom s) in
  (id, <[id := {| messages := []; created_at := now;
                  last_activity := now |}]> s).

(** Modelled from the spec: [append(id, Message)] fails with NotFound
    if the id is unknown. *)
Definition append (id : string) (m : Message) (now : nat)
    (s : gmap string Conversation)
  : result CoreError (gmap string Conversation) :=
  match s !! id with
  | Some c =>
      Ok (<[id := {| messages := messages c ++ [m];
                     created_at := created_at c;
                     last_activity := now |}]> s)
  | None => Err NotFound
  end.

(** Modelled from the spec: [history(id)] returns the ordered messages
    and fails with NotFound if the id is unknown. *)
Definition history (id : string) (s : gmap string Conversation)
  : result CoreError (list Message) :=
  match s !! id with
  | Some c => Ok (messages c)
  | None => Err NotFound
  end.

(** Modelled from the spec: [delete(id)] succeeds even if already
    absent (idempotent). *)
Definition delete (id : string) (s : gmap string Conversation)
  : gmap string Conversation :=
  base.delete id s.

End ConversationStore.

(** *** Result Cache (section 4.3) *)

Module ResultCache.

(** Modelled from the spec: [get(key) -> value or miss]; a read at or
    after the expiry time is treated as absent. *)
Definition get (key : string * string) (now : nat)
    (c : gmap (string * string) CacheEntry) : option json :=
  match c !! key with
  | Some e => if now <? expiry e then Some (value e) else None
  | None => None
  end.

(** Modelled from the spec: [put(key, value, ttl)]; last writer wins. *)
Definition put (key : string * string) (v : json) (ttl now : nat)
    (c : gmap (string * string) CacheEntry)
  : gmap (string * string) CacheEntry :=
  <[key := {| value := v; expiry := now + ttl |}]> c.

End ResultCache.

(** *** Tool Registry (section 4.3) *)

(** Modelled from the spec: how one run of an executor ends, after
    [elapsed] time units: with a value or with a failure. *)
Inductive ExecOutcome : Type :=
| Completed (elapsed : nat) (v : json)
| Raised (elapsed : nat) (msg : string).

(** Modelled from the spec: a registry entry
    {input validator, executor, cacheable, timeout}.  The executor is an
    external capability: its outcome may depend on the time of the call. *)
Record ToolSpec : Type := mkToolSpec {
  validator : ToolInput -> bool;
  executor : ToolInput -> nat -> ExecOutcome;
  cacheable : bool;
  timeout : nat
}.

(** Modelled from the spec: the configurable policy of the core: round
    bound, gateway attempts, cache TTL and key canonicalization, the
    registration table, and the texts of the degraded answers.  The spec
    does not say from which value the round counter of section 4.5
    starts: [FIRST_ROUND] is that value, left open. *)
Record Config : Type := mkConfig {
  MAX_ROUNDS : nat;
  FIRST_ROUND : nat;
  MAX_ATTEMPTS : nat;
  ttl : nat;
  canonicalize : ToolInput -> string;
  registry : gmap string ToolSpec;
  degraded_answer : string;
  error_answer : string
}.

(** Modelled from the spec: validation rejects unknown tool names with
    ToolNotFound and malformed input with InvalidToolInput. *)
Definition validate (cfg : Config) (c : PendingCall)
  : result FailureKind ToolSpec :=
  match registry cfg !! req_tool c with
  | None => Err ToolNotFound
  | Some spec =>
      if validator spec (req_input c) then Ok spec else Err InvalidToolInput
  end.

Definition is_valid (cfg : Config) (c : PendingCall) : bool :=
  match validate cfg c with
  | Ok _ => true
  | Err _ => false
  end.

(** *** Tool Dispatcher (section 4.4) *)

Module Dispatcher.

(** Modelled from the spec: the shared mutable state of the dispatcher
    (the backend sources are missing): the Result Cache and the log of
    executor runs (tool name and input of each run, oldest first). *)
Record State : Type := mkState {
  cache : gmap (string * string) CacheEntry;
  runs : list (string * ToolInput)
}.

Definition cache_key (cfg : Config) (name : string) (input : ToolInput)
  : string * string :=
  (name, canonicalize cfg input).

(** Modelled from the spec: run the executor under the per-tool
    timeout; timeout or executor failure gives a failure-kind result. *)
Definition run_executor (spec : ToolSpec) (input : ToolInput) (now : nat)
  : ToolResult :=
  match executor spec input now with
  | Completed elapsed v =>
      if elapsed <=? timeout spec then Success v
      else Failure ToolTimeout "tool execution timed out"
  | Raised elapsed msg =>
      if elapsed <=? timeout spec then Failure ToolExecutionFailed msg
      else Failure ToolTimeout "tool execution timed out"
  end.

(** Modelled from the spec: one call: consult the cache if the tool is
    cacheable; on a miss run the executor; on success populate the
    cache (if cacheable). *)
Definition invoke (cfg : Config) (spec : ToolSpec) (name : string)
    (input : ToolInput) (now : nat) (st : State) : ToolResult * State :=
  let key := cache_key cfg name input in
  match (if cacheable spec then ResultCache.get key now (cache st)
         else None) with
  | Some v => (Success v, st)
  | None =>
      let r := run_executor spec input now in
      let log := runs st ++ [(name, input)] in
      match r with
      | Success v =>
          (r, {| cache := if cacheable spec
                          then ResultCache.put key v (ttl cfg) now (cache st)
                          else cache st;
                 runs := log |})
      | Failure _ _ => (r, {| cache := cache st; runs := log |})
      end
  end.

Definition invoke_call (cfg : Config) (c : PendingCall) (now : nat)
    (st : State) : ToolResult * State :=
  match registry cfg !! req_tool c with
  | Some spec => invoke cfg spec (req_tool c) (req_input c) now st
  | None => (Failure ToolNotFound "unknown tool", st)
  end.

(** Modelled from the spec: independent calls run concurrently and the
    dispatcher waits for all of them; calls complete in an order it
    does not control.  [complete] handles the completion of call [i]:
    its result goes to slot [i]; a call resolves once, and an index
    outside the batch is ignored. *)
Definition complete (cfg : Config) (calls : list PendingCall) (now : nat)
    (acc : list (option ToolResult) * State) (i : nat)
  : list (option ToolResult) * State :=
  match calls !! i, acc.1 !! i with
  | Some c, Some None =>
      match invoke_call cfg c now acc.2 with
      | (r, st') => (<[i := Some r]> acc.1, st')
      end
  | _, _ => acc
  end.

(** Modelled from the spec: the overall dispatch deadline: a call still
    pending when the deadline passes is resolved
    as a timeout. *)
Definition resolve (c : PendingCall) (slot : option ToolResult) : ToolCall :=
  {| tool_name := req_tool c;
     tool_input := req_input c;
     tool_result :=
       default (Failure ToolTimeout "dispatch deadline exceeded") slot |}.

(** The pending call that a resolved ToolCall answers. *)
Definition call_of (tc : ToolCall) : PendingCall :=
  {| req_tool := tool_name tc; req_input := tool_input tc |}.

(** Modelled from the spec: [execute(ordered sequence of ToolCall) ->
    ordered sequence of ToolResult]; [schedule] is the order in which
    the concurrent executions complete. *)
Definition execute (cfg : Config) (calls : list PendingCall)
    (schedule : list nat) (now : nat) (st : State)
  : list ToolCall * State :=
  match foldl (complete cfg calls now)
              (replicate (length calls) None, st) schedule with
  | (slots, st') => (zip_with resolve calls slots, st')
  end.

End Dispatcher.

(** *** Model Gateway (section 4.2) *)

(** Modelled from the spec: Decision is a tagged variant. *)
Inductive Decision : Type :=
| FinalAnswer (text : string)
| ToolRequest (calls : list PendingCall).

(** Modelled from the spec: the two recoverable gateway failures. *)
Inductive GatewayError : Type := ModelUnavailable | ModelMalformedOutput.

(** Modelled from the spec: the external collaborators of one turn
    (sections 4.2 and 5).  The gateway is a black box
    that need not be deterministic: [decide k history] is its answer to
    the [k]-th call of the turn.  [clock r] is the time at which round
    [r] dispatches ([clock 0]: the time the turn starts),
    [completion_order r] the order in which the concurrent executions of
    that round complete, [new_id] the server's id generator. *)
Record World : Type := mkWorld {
  decide : nat -> list Message -> result GatewayError Decision;
  clock : nat -> nat;
  completion_order : nat -> list nat;
  new_id : gset string -> string
}.

(** The generator never returns an id already in use. *)
Definition fresh_ids (w : World) : Prop :=
  ∀ X : gset string, new_id w X ∉ X.

(** A gateway that requests tools on every decision. *)
Definition always_requests_tools (w : World) : Prop :=
  ∀ k history, ∃ calls, decide w k history = Ok (ToolRequest calls).

(** A gateway that fails on every call. *)
Definition gateway_down (w : World) : Prop :=
  ∀ k history, ∃ e, decide w k history = Err e.

(** *** Orchestration Loop (section 4.5) *)

Module Loop.

(** Modelled from the spec: the states of the machine; [Done] carries
    the text of the final answer, or the error that ended the turn. *)
Inductive Phase : Type :=
| Start
| AwaitingDecision
| Answering (text : string)
| Dispatching (calls : list PendingCall)
| Done (outcome : result CoreError string).

(** Modelled from the spec: the variables of the loop.  [round] is the
    round counter of step 4, [gateway_calls] the number
    of gateway calls made so far, [dispatches] the number of
    AwaitingDecision-to-Dispatching cycles completed, [trace] the
    tool-call trace of the turn. *)
Record State : Type := mkState {
  phase : Phase;
  store : gmap string Conversation;
  dispatcher : Dispatcher.State;
  round : nat;
  gateway_calls : nat;
  dispatches : nat;
  trace : list ToolCall
}.

Definition init_from (r0 : nat) (s : gmap string Conversation)
    (d : Dispatcher.State) : State :=
  {| phase := Start; store := s; dispatcher := d; round := r0;
     gateway_calls := 0; dispatches := 0; trace := [] |}.

(** Modelled from the spec: the machine at the start of a turn, with the
    round counter at the configured first value. *)
Definition init (cfg : Config) (s : gmap string Conversation)
    (d : Dispatcher.State) : State :=
  init_from (FIRST_ROUND cfg) s d.

Definition set_phase (p : Phase) (st : State) : State :=
  {| phase := p; store := store st; dispatcher := dispatcher st;
     round := round st; gateway_calls := gateway_calls st;
     dispatches := dispatches st; trace := trace st |}.

(** Modelled from the spec: the Store's append as the loop uses it:
    append [m] to the conversation and move to [next]; an unknown id
    ends the turn with NotFound. *)
Definition record (id : string) (m : Message) (now : nat) (next : Phase)
    (st : State) : State :=
  match ConversationStore.append id m now (store st) with
  | Ok s' =>
      {| phase := next; store := s'; dispatcher := dispatcher st;
         round := round st; gateway_calls := gateway_calls st;
         dispatches := dispatches st; trace := trace st |}
  | Err e => set_phase (Done (Err e)) st
  end.

(** Modelled from the spec: step 5: the gateway call is retried up to
    a fixed number of attempts; [k] counts the calls of the turn. *)
Fixpoint decide_with_retry (w : World) (attempts k : nat)
    (history : list Message) : option Decision * nat :=
  match attempts with
  | 0 => (None, k)
  | S n =>
      match decide w k history with
      | Ok d => (Some d, S k)
      | Err _ => decide_with_retry w n (S k) history
      end
  end.

(** Modelled from the spec: step 4: a call rejected by validation is
    not dispatched; a failure result is synthesized for it. *)
Definition reject (c : PendingCall) : ToolCall :=
  {| tool_name := req_tool c;
     tool_input := req_input c;
     tool_result := Failure InvalidToolInput "rejected by the registry" |}.

(** Modelled from the spec: the tie-break rule of section 4.5: the trace
    of a round holds the dispatched results and the synthesized
    rejections, in the order the gateway listed the calls. *)
Fixpoint merge (cfg : Config) (calls : list PendingCall)
    (dispatched : list ToolCall) : list ToolCall :=
  match calls with
  | [] => []
  | c :: rest =>
      if is_valid cfg c then
        match dispatched with
        | r :: rs => r :: merge cfg rest rs
        | [] => Dispatcher.resolve c None :: merge cfg rest []
        end
      else reject c :: merge cfg rest dispatched
  end.

(** Modelled from the spec: one transition of the machine, for the
    turn of conversation [id] with user text [text]. *)
Definition step (cfg : Config) (w : World) (id text : string)
    (st : State) : State :=
  match phase st with
  | Start =>
      record id {| role := user; content := text; tool_calls := [] |}
             (clock w 0) AwaitingDecision st
  | AwaitingDecision =>
      match ConversationStore.history id (store st) with
      | Err e => set_phase (Done (Err e)) st
      | Ok history =>
          match decide_with_retry w (MAX_ATTEMPTS cfg)
                  (gateway_calls st) history with
          | (None, k) =>
              record id {| role := assistant;
                           content := error_answer cfg;
                           tool_calls := [] |}
                     (clock w (round st)) (Done (Ok (error_answer cfg)))
                {| phase := phase st; store := store st;
                   dispatcher := dispatcher st; round := round st;
                   gateway_calls := k; dispatches := dispatches st;
                   trace := trace st |}
          | (Some (FinalAnswer t), k) =>
              {| phase := Answering t; store := store st;
                 dispatcher := dispatcher st; round := round st;
                 gateway_calls := k; dispatches := dispatches st;
                 trace := trace st |}
          | (Some (ToolRequest calls), k) =>
              {| phase := Dispatching calls; store := store st;
                 dispatcher := dispatcher st; round := round st;
                 gateway_calls := k; dispatches := dispatches st;
                 trace := trace st |}
          end
      end
  | Answering t =>
      record id {| role := assistant; content := t; tool_calls := [] |}
             (clock w (round st)) (Done (Ok t)) st
  | Dispatching calls =>
      let now := clock w (round st) in
      match Dispatcher.execute cfg (List.filter (is_valid cfg) calls)
              (completion_order w (round st)) now (dispatcher st) with
      | (dispatched, d') =>
          let resolved := merge cfg calls dispatched in
          let st1 :=
            record id {| role := assistant; content := "";
                         tool_calls := resolved |} now AwaitingDecision
              {| phase := phase st; store := store st; dispatcher := d';
                 round := S (round st);
                 gateway_calls := gateway_calls st;
                 dispatches := S (dispatches st);
                 trace := trace st ++ resolved |} in
          match phase st1 with
          | AwaitingDecision =>
              if MAX_ROUNDS cfg <? round st1 then
                record id {| role := assistant;
                             content := degraded_answer cfg;
                             tool_calls := [] |}
                       now (Done (Ok (degraded_answer cfg))) st1
              else st1
          | _ => st1
          end
      end
  | Done _ => st
  end.

(** The machine after [n] transitions. *)
Definition run (cfg : Config) (w : World) (id text : string) (n : nat)
    (st : State) : State :=
  Nat.iter n (step cfg w id text) st.

Definition is_done (st : State) : bool :=
  match phase st with
  | Done _ => true
  | _ => false
  end.

(** The conversation [id] of the turn exists and the turn has not
    failed. *)
Definition healthy (id : string) (st : State) : Prop :=
  is_Some (store st !! id) ∧ ∀ e, phase st ≠ Done (Err e).

End Loop.

(** *** The interface of the core to its host (section 6) *)

(** Modelled from the spec: the result of a turn: the answer text, the
    conversation id and the tool-call trace. *)
Record TurnResult : Type := mkTurnResult {
  response : string;
  conversation_id : string;
  turn_tool_calls : list ToolCall
}.

(** Modelled from the spec: the persisted state layout of section 6:
    conversations and cache entries, in memory. *)
Record ServerState : Type := mkServerState {
  conversations : gmap string Conversation;
  tools : Dispatcher.State
}.

(** Transitions that suffice for any turn: one to leave [Start], two per
    dispatch round, two for the final answer. *)
Definition enough_fuel (cfg : Config) : nat := 2 * MAX_ROUNDS cfg + 3.

(** Modelled from the spec: [handleTurn(conversationId?, text) ->
    TurnResult]: if the id is absent a new Conversation is created; the
    loop then runs for at most [fuel] transitions.  [None] means the
    loop is still running when the fuel is spent. *)
Definition handleTurn (cfg : Config) (w : World) (fuel : nat)
    (conversationId : option string) (text : string) (ss : ServerState)
  : option (result CoreError TurnResult * ServerState) :=
  let '(id, s0) :=
    match conversationId with
    | Some id => (id, conversations ss)
    | None =>
        ConversationStore.create (new_id w) (clock w 0) (conversations ss)
    end in
  let final := Loop.run cfg w id text fuel (Loop.init cfg s0 (tools ss)) in
  let ss' := {| conversations := Loop.store final;
                tools := Loop.dispatcher final |} in
  match Loop.phase final with
  | Loop.Done (Ok t) =>
      Some (Ok {| response := t; conversation_id := id;
                  turn_tool_calls := Loop.trace final |}, ss')
  | Loop.Done (Err e) => Some (Err e, ss')
  | _ => None
  end.

(** Modelled from the spec: [deleteConversation(id)]. *)
Definition deleteConversation (id : string) (ss : ServerState) : ServerState :=
  {| conversations := ConversationStore.delete id (conversations ss);
     tools := tools ss |}.

(** Modelled from the spec: [DELETE /api/conversations/{conversation_id}]
    deletes the Conversation; idempotent; no body.  The response is a
    success whose body is empty, so reading it as JSON would reject. *)
Definition route_delete (id : string) (ss : ServerState)
  : Api.Response unit * ServerState :=
  (Api.RespOk (Thrown (mkError "Unexpected end of JSON input")),
   deleteConversation id ss).

End Core.

(* ===================================================================== *)
(** ** Concrete networks, registries and gateways                         *)
(* ===================================================================== *)

Module Examples.
Import Js Eff.

(** *** Client side *)

Definition failed_to_fetch : Error := mkError "Failed to fetch".

(** No network: every request rejects. *)
Definition offline : Api.Net :=
  {| Api.fetch_agent := fun _ => Thrown failed_to_fetch;
     Api.fetch_delete := fun _ => Thrown failed_to_fetch;
     Api.fetch_health := fun _ => Thrown failed_to_fetch |}.

(** A backend that answers every agent request with [r]. *)
Definition replying (r : Api.AgentResponse) : Api.Net :=
  {| Api.fetch_agent := fun _ => Returned (Api.RespOk (Returned r));
     Api.fetch_delete := fun _ => Returned (Api.RespOk (Returned tt));
     Api.fetch_health := fun _ =>
       Returned (Api.RespOk
         (Returned (JObj [("api_key_configured", JBool true)]))) |}.

(** A backend whose delete endpoint answers 404 with a detail. *)
Definition delete_not_found : Api.Net :=
  {| Api.fetch_agent := fun _ => Thrown failed_to_fetch;
     Api.fetch_delete := fun _ =>
       Returned (Api.RespNotOk
         (Returned (JObj [("detail", JStr "Conversation not found")])));
     Api.fetch_health := fun _ => Thrown failed_to_fetch |}.

(** Something answers [/health] with status 200 and a body that is not
    JSON (an HTML page of a proxy, say). *)
Definition health_not_json : Api.Net :=
  {| Api.fetch_agent := fun _ => Thrown failed_to_fetch;
     Api.fetch_delete := fun _ => Thrown failed_to_fetch;
     Api.fetch_health := fun _ =>
       Returned (Api.RespOk
         (Thrown (mkError "Unexpected token < in JSON at position 0"))) |}.

Definition reply_450 : Api.AgentResponse :=
  {| Api.response := "15 * (23 + 7) = 450";
     Api.conversation_id := "7f3a";
     Api.tool_calls :=
       Some [ {| Api.tool_name := "calculate";
                 Api.tool_input := [("expression", JStr "15 * (23 + 7)")];
                 Api.tool_output := JStr "450" |} ] |}.

Definition reply_more : Api.AgentResponse :=
  {| Api.response := "It is sunny in Tokyo.";
     Api.conversation_id := "ffff";
     Api.tool_calls := None |}.

(** An answer whose conversation id is the empty string. *)
Definition reply_empty_id : Api.AgentResponse :=
  {| Api.response := "Hello!";
     Api.conversation_id := "";
     Api.tool_calls := None |}.

(** *** Server side *)

Import Core.

(** A canonicalization policy: the fields that carry a value, rendered
    as [name=value;], null fields dropped. *)
Fixpoint canonical (input : ToolInput) : string :=
  match input with
  | [] => ""
  | (k, JNull) :: rest => canonical rest
  | (k, JStr v) :: rest => k +:+ "=" +:+ v +:+ ";" +:+ canonical rest
  | (k, JNum v) :: rest => k +:+ "=" +:+ v +:+ ";" +:+ canonical rest
  | (k, _) :: rest => k +:+ ";" +:+ canonical rest
  end.

Definition non_empty (input : ToolInput) : bool :=
  match input with
  | [] => false
  | _ :: _ => true
  end.

Definition get_weather : ToolSpec :=
  {| validator := non_empty;
     executor := fun _ _ => Completed 2 (JStr "18C, clear sky");
     cacheable := true;
     timeout := 5 |}.

Definition calculate : ToolSpec :=
  {| validator := non_empty;
     executor := fun _ _ => Completed 1 (JStr "450");
     cacheable := false;
     timeout := 5 |}.

(** A cacheable tool whose executor fails on every run. *)
Definition search_web : ToolSpec :=
  {| validator := non_empty;
     executor := fun _ _ => Raised 1 "upstream unavailable";
     cacheable := true;
     timeout := 5 |}.

Definition config : Config :=
  {| MAX_ROUNDS := 4;
     FIRST_ROUND := 0;
     MAX_ATTEMPTS := 3;
     ttl := 60;
     canonicalize := canonical;
     registry := {[ "get_weather" := get_weather;
                    "calculate" := calculate;
                    "search_web" := search_web ]};
     degraded_answer :=
       "Sorry, I could not reach an answer within the allowed number of steps.";
     error_answer :=
       "Sorry, the language model is unavailable right now." |}.

Definition tokyo : ToolInput := [("location", JStr "Tokyo")].
Definition tokyo_null_units : ToolInput :=
  [("location", JStr "Tokyo"); ("units", JNull)].
Definition about_nlp : ToolInput := [("query", JStr "NLP")].

(** A gateway that requests the calculator on every decision. *)
Definition insistent : World :=
  {| decide := fun _ _ =>
       Ok (ToolRequest
             [ {| req_tool := "calculate";
                  req_input := [("expression", JStr "15 * (23 + 7)")] |} ]);
     clock := fun r => r;
     completion_order := fun _ => [0];
     new_id := fresh |}.


Definition idle : Dispatcher.State :=
  {| Dispatcher.cache := ∅; Dispatcher.runs := [] |}.

Definition one_conversation : gmap string Conversation :=
  {[ "7f3a" := {| messages := []; created_at := 0; last_activity := 0 |} ]}.

Definition server : ServerState :=
  {| conversations := one_conversation; tools := idle |}.

(** The client talking to the core: the delete endpoint is served by
    [route_delete] on the server state [ss]. *)
Definition served_by (id : string) (ss : ServerState) : Api.Net :=
  {| Api.fetch_agent := fun _ => Thrown failed_to_fetch;
     Api.fetch_delete := fun _ => Returned (route_delete id ss).1;
     Api.fetch_health := fun _ => Thrown failed_to_fetch |}.

End Examples.

Module MoreExamples.
Import Js Eff.


(** A chat in which a first turn was answered. *)
Definition answered : Chat.ChatState :=
  {| Chat.messages :=
       [ {| Chat.role := Chat.user; Chat.content := "Hello";
            Chat.toolCalls := None |};
         {| Chat.role := Chat.assistant; Chat.content := "Hi!";
            Chat.toolCalls := None |} ];
     Chat.input := " What is the weather in Tokyo? ";
     Chat.isLoading := false;
     Chat.apiStatus := Chat.connected;
     Chat.conversationId := Some "7f3a";
     Chat.statusMessage := None |}.

End MoreExamples.

Local Open Scope nat_scope.
Local Open Scope list_scope.

(* ===================================================================== *)
(** * Properties of the client                                            *)
(* ===================================================================== *)

Section ClientProperties.
Import Js Eff Api Chat.

Variable env : option string.

(** Unfolds the effect monad down to the underlying state function. *)
Ltac eff_unfold :=
  cbv [fire exec mbind mret eff_bind eff_ret bind ret throw try_catch
       try_finally emit modify await console_error
       setMessages setInput setIsLoading setConversationId setApiStatus
       setStatusMessage].

(** What [queryAgent] does for each way the request can end. *)
Lemma queryAgent_exec (net : Net) {S : Type} (s : S) (log : list Event)
    (query : string) (cid : option string) :
  let req := queryAgent_request env query cid in
  let failed e :=
    (Thrown e, s,
     (log ++ [EvFetch req; EvConsoleError "Error querying agent:" e])%list) in
  queryAgent env net query cid s log =
  match fetch_agent net req with
  | Returned (RespOk (Returned r)) => (Returned r, s, (log ++ [EvFetch req])%list)
  | Returned (RespOk (Thrown e)) => failed e
  | Returned (RespNotOk (Returned d)) =>
      failed (rejection d
                "An error occurred while querying the agent.")
  | Returned (RespNotOk (Thrown e)) => failed e
  | Thrown e => failed e
  end.
Proof.
  intros req failed. subst failed. unfold queryAgent. fold req. eff_unfold.
  destruct (fetch_agent net req) as [[[r|e]|[d|e]]|e];
    try (unfold rejection; destruct (get_property d "detail");
         try destruct (new_Error _)); cbn;
    rewrite <- ?app_assoc; reflexivity.
Qed.

(** What [deleteConversation] does for each way the request can end. *)
Lemma deleteConversation_exec (net : Net) {S : Type} (s : S)
    (log : list Event) (id : string) :
  let req := deleteConversation_request env id in
  let failed e :=
    (Thrown e, s,
     (log ++ [EvFetch req;
              EvConsoleError "Error deleting conversation:" e])%list) in
  deleteConversation env net id s log =
  match fetch_delete net req with
  | Returned (RespOk _) => (Returned tt, s, (log ++ [EvFetch req])%list)
  | Returned (RespNotOk (Returned d)) =>
      failed (rejection d
                "An error occurred while deleting the conversation.")
  | Returned (RespNotOk (Thrown e)) => failed e
  | Thrown e => failed e
  end.
Proof.
  intros req failed. subst failed. unfold deleteConversation. fold req.
  eff_unfold.
  destruct (fetch_delete net req) as [[j|[d|e]]|e];
    try (unfold rejection; destruct (get_property d "detail");
         try destruct (new_Error _)); cbn;
    rewrite <- ?app_assoc; reflexivity.
Qed.

(** C2.  The request of an agent turn is a POST to /api/agent whose JSON
    body has exactly the property [query] (a string) and, only when a
    conversation id is passed, the property [conversation_id] (a string);
    exactly one request is made; and a call that returns, returns the
    [AgentResponse] document of an ok response: [response] and
    [conversation_id] always present, [tool_calls] optional. *)
Theorem queryAgent_wire_contract (net : Net) {S : Type} (s : S)
    (query : string) (cid : option string) :
  let req := queryAgent_request env query cid in
  method req = POST
  ∧ url req = API_BASE_URL env +:+ "/api/agent"
  ∧ body req =
      Some (JObj (("query", JStr query) ::
                  match cid with
                  | Some c => [("conversation_id", JStr c)]
                  | None => []
                  end))
  ∧ (∃ c log, exec (queryAgent env net query cid) s = (c, s, EvFetch req :: log)
              ∧ Forall (λ ev, match ev with EvFetch _ => False | _ => True end) log
              ∧ c = match fetch_agent net req with
                    | Returned (RespOk (Returned r)) =>
                        Returned {| response := response r;
                                    conversation_id := conversation_id r;
                                    tool_calls := tool_calls r |}
                    | Returned (RespOk (Thrown e)) => Thrown e
                    | Returned (RespNotOk (Returned d)) =>
                        Thrown (rejection d
                "An error occurred while querying the agent.")
                    | Returned (RespNotOk (Thrown e)) => Thrown e
                    | Thrown e => Thrown e
                    end).
Proof.
  intros req. repeat split.
  - destruct cid; reflexivity.
  - unfold exec. rewrite queryAgent_exec. fold req.
    destruct (fetch_agent net req) as [[[r|e]|[d|e]]|e]; cbn;
      eexists _, _; (split; [reflexivity|]); split;
      try (destruct r); auto.
Qed.

(** What [handleSubmit] does: nothing on blank input, otherwise one
    agent request and one reply appended after the user message. *)
Lemma handleSubmit_exec (net : Net) (st : ChatState) :
  let req := queryAgent_request env (input st)
               (or_undefined (conversationId st)) in
  let userMessage :=
    {| role := user; content := input st; toolCalls := None |} in
  let after reply cid log :=
    (Returned tt,
     {| messages := messages st ++ [userMessage; reply]; input := "";
        isLoading := false; apiStatus := apiStatus st;
        conversationId := cid; statusMessage := statusMessage st |},
     EvPreventDefault :: EvFetch req :: log) in
  let failed e :=
    after errorMessage (conversationId st)
      [EvConsoleError "Error querying agent:" e;
       EvConsoleError "Error querying agent:" e] in
  fire (handleSubmit env net) st =
  if truthy (trim (input st)) then
    match fetch_agent net req with
    | Returned (RespOk (Returned r)) =>
        after {| role := assistant; content := response r;
                 toolCalls := tool_calls r |}
              (if truthy (conversation_id r)
                  && negb (truthy_opt (conversationId st))
               then Some (conversation_id r) else conversationId st)
              []
    | Returned (RespOk (Thrown e)) => failed e
    | Returned (RespNotOk (Returned d)) =>
        failed (rejection d
                "An error occurred while querying the agent.")
    | Returned (RespNotOk (Thrown e)) => failed e
    | Thrown e => failed e
    end
  else (Returned tt, st, [EvPreventDefault]).
Proof.
  intros req userMessage after failed. subst after failed.
  unfold fire, exec, handleSubmit.
  destruct (truthy (trim (input st))) eqn:Htrim; cbn [negb].
  2: { destruct st; reflexivity. }
  cbv [mbind mret eff_bind eff_ret bind ret try_catch try_finally emit
       modify console_error setMessages setInput setIsLoading
       setConversationId].
  cbn [app messages input isLoading apiStatus conversationId statusMessage].
  rewrite queryAgent_exec. fold req.
  destruct (fetch_agent net req) as [[[r|e]|[d|e]]|e];
    cbn [app messages input isLoading apiStatus conversationId
         statusMessage];
    try (destruct (truthy (conversation_id r)
                   && negb (truthy_opt (conversationId st)));
         cbn [app messages input isLoading apiStatus conversationId
              statusMessage]);
    rewrite <- ?app_assoc; reflexivity.
Qed.

(** C9.  Submitting an input that trims to the empty string changes
    nothing: no request is made (the only effect is the form event's
    preventDefault) and the whole component state, with the message
    list, the conversation id and the loading flag, is as before. *)
Theorem handleSubmit_blank_noop (net : Net) (st : ChatState) :
  trim (input st) = "" →
  fire (handleSubmit env net) st = (Returned tt, st, [EvPreventDefault]).
Proof.
  intros Hblank. rewrite handleSubmit_exec, Hblank. reflexivity.
Qed.

(** What [startNewConversation] does for each way the delete can end. *)
Lemma startNewConversation_exec (net : Net) (st : ChatState) :
  let cleared :=
    {| messages := []; input := input st; isLoading := isLoading st;
       apiStatus := apiStatus st; conversationId := None;
       statusMessage := statusMessage st |} in
  ∃ log, fire (startNewConversation env net) st = (Returned tt, cleared, log).
Proof.
  intros cleared. unfold fire, exec, startNewConversation.
  destruct (conversationId st) as [id|] eqn:Hid.
  - destruct (truthy id).
    + cbv [mbind mret eff_bind eff_ret bind ret try_catch console_error
           emit modify setMessages setConversationId].
      rewrite deleteConversation_exec.
      destruct (fetch_delete net _) as [[j|[d|e]]|e]; eexists; reflexivity.
    + eexists; reflexivity.
  - eexists; reflexivity.
Qed.

(** C10.  startNewConversation always returns normally with the held
    conversation id reset to null and the message list empty, whatever
    the network does with the delete request (ok, error status,
    unreadable error body, network failure). *)
Theorem startNewConversation_resets (net : Net) (st : ChatState) :
  ∃ st' log,
    fire (startNewConversation env net) st = (Returned tt, st', log)
    ∧ conversationId st' = None
    ∧ messages st' = [].
Proof.
  destruct (startNewConversation_exec net st) as [log Hrun].
  eexists _, log. split; [exact Hrun|]. split; reflexivity.
Qed.

(** C8 (amended).  checkHealth never throws and leaves the state alone.
    It returns [{isHealthy: true, apiKeyConfigured}] exactly when the
    response is ok, its body reads as JSON and the value read is not
    [null]; [apiKeyConfigured] is then the [api_key_configured] property
    of that value ([undefined] when the value has none).  For a non-ok
    response, a network failure, an ok response whose body cannot be
    read, or an ok response whose body is [null], it returns
    [{isHealthy: false}] with [apiKeyConfigured] absent. *)
Theorem checkHealth_total (net : Net) {S : Type} (s : S) :
  ∃ log,
    exec (checkHealth env net) s =
    (Returned
       match fetch_health net (checkHealth_request env) with
       | Returned (RespOk (Returned JNull)) =>
           {| isHealthy := false; apiKeyConfigured := None |}
       | Returned (RespOk (Returned (JObj fields))) =>
           {| isHealthy := true;
              apiKeyConfigured := lookup_property fields "api_key_configured" |}
       | Returned (RespOk (Returned _)) =>
           {| isHealthy := true; apiKeyConfigured := None |}
       | _ => {| isHealthy := false; apiKeyConfigured := None |}
       end, s, log).
Proof.
  unfold exec, checkHealth.
  cbv [mbind mret eff_bind eff_ret bind ret try_catch console_error emit
       await].
  destruct (fetch_health net _) as [[[data|e]|j]|e];
    try destruct data; eexists; reflexivity.
Qed.

(** A turn sent without an id adopts the id of the reply when that id
    is a non-empty string. *)
Lemma turn_adopts_id (net : Net) (st : ChatState) (text : string)
    (r : AgentResponse) :
  conversationId st = None →
  trim text ≠ "" →
  fetch_agent net (queryAgent_request env text None) = Returned (RespOk (Returned r)) →
  conversation_id r ≠ "" →
  conversationId (turn env text net st).1 = Some (conversation_id r).
Proof.
  intros Hnone Htext Hfetch Hid. unfold turn.
  rewrite handleSubmit_exec. cbn [typeText input conversationId].
  rewrite Hnone. cbn [or_undefined truthy_opt negb].
  destruct (trim text) eqn:Ht; [done|]. cbn [truthy].
  rewrite Hfetch.
  destruct (conversation_id r) eqn:Hr; [done|]. reflexivity.
Qed.

(** Once a non-empty id is held, no turn changes it, and every request
    of every later turn carries it. *)
Lemma turns_keep_id (id : string) (script : list (string * Net)) :
  id ≠ "" →
  ∀ st, conversationId st = Some id →
    conversationId (turns env script st).1 = Some id
    ∧ Forall (carries_id env id) (turns env script st).2.
Proof.
  intros Hid. induction script as [|[text net] rest IH]; intros st Hheld.
  - split; [exact Hheld | constructor].
  - cbn [turns].
    assert (Hturn : conversationId (turn env text net st).1 = Some id
                    ∧ Forall (carries_id env id) (turn env text net st).2).
    { unfold turn. rewrite handleSubmit_exec.
      cbn [typeText input conversationId]. rewrite Hheld.
      destruct id as [|a id']; [done|].
      cbn [or_undefined truthy truthy_opt negb andb].
      destruct (truthy (trim text)).
      - destruct (fetch_agent net _) as [[[r|e]|[d|e]]|e];
          rewrite ?andb_false_r; (split; [first [reflexivity | exact Hheld]|]);
          repeat constructor; by eexists.
      - split; [exact Hheld | repeat constructor]. }
    destruct (turn env text net st) as [st1 log1]. destruct Hturn as [H1 F1].
    specialize (IH st1 H1).
    destruct (turns env rest st1) as [st2 log2]. destruct IH as [H2 F2].
    split; [exact H2 | by apply Forall_app].
Qed.


End ClientProperties.

(* ===================================================================== *)
(** * Properties of the orchestration core                                *)
(* ===================================================================== *)

Section DispatcherProperties.
Import Js Core Core.Dispatcher.

Variable cfg : Config.

Lemma complete_length (calls : list PendingCall) (now : nat)
    (acc : list (option ToolResult) * State) (i : nat) :
  length (complete cfg calls now acc i).1 = length acc.1.
Proof.
  unfold complete.
  destruct (calls !! i) as [c|]; [|reflexivity].
  destruct (acc.1 !! i) as [[r|]|]; try reflexivity.
  destruct (invoke_call cfg c now acc.2) as [r st']. cbn.
  apply length_insert.
Qed.

Lemma schedule_keeps_slots (calls : list PendingCall) (now : nat)
    (schedule : list nat) :
  ∀ acc, length (foldl (complete cfg calls now) acc schedule).1 = length acc.1.
Proof.
  induction schedule as [|i rest IH]; intros acc; [reflexivity|].
  cbn [foldl]. rewrite IH. apply complete_length.
Qed.

(** The result of [execute] is the calls zipped with the slots that the
    completions filled. *)
Lemma execute_slots (calls : list PendingCall) (schedule : list nat)
    (now : nat) (st : State) :
  (execute cfg calls schedule now st).1
  = zip_with resolve calls
      (foldl (complete cfg calls now)
             (replicate (length calls) None, st) schedule).1.
Proof.
  unfold execute. by destruct (foldl _ _ schedule) as [slots st'].
Qed.

(** The completion of call [j] leaves the slot of every other call as
    it was. *)
Lemma complete_other (calls : list PendingCall) (now : nat)
    (acc : list (option ToolResult) * State) (i j : nat) :
  j ≠ i → (complete cfg calls now acc j).1 !! i = acc.1 !! i.
Proof.
  intros Hji. unfold complete.
  destruct (calls !! j) as [c|]; [|reflexivity].
  destruct (acc.1 !! j) as [[r|]|]; try reflexivity.
  destruct (invoke_call cfg c now acc.2) as [r st']. cbn.
  by apply list_lookup_insert_ne.
Qed.

(** A slot is untouched by the completions of the other calls. *)
Lemma slot_untouched (calls : list PendingCall) (now : nat) (i : nat)
    (schedule : list nat) :
  i ∉ schedule →
  ∀ acc, (foldl (complete cfg calls now) acc schedule).1 !! i = acc.1 !! i.
Proof.
  induction schedule as [|j rest IH]; intros Hnot acc; [reflexivity|].
  apply not_elem_of_cons in Hnot as [Hij Hrest].
  cbn [foldl]. rewrite IH by done. by apply complete_other.
Qed.

(** A call resolves once: a filled slot keeps its result. *)
Lemma slot_sticky (calls : list PendingCall) (now : nat) (i : nat)
    (r : ToolResult) (schedule : list nat) :
  ∀ acc, acc.1 !! i = Some (Some r) →
    (foldl (complete cfg calls now) acc schedule).1 !! i = Some (Some r).
Proof.
  induction schedule as [|j rest IH]; intros acc Hslot; [done|].
  cbn [foldl]. apply IH.
  destruct (Nat.eq_dec j i) as [->|Hji].
  - unfold complete. rewrite Hslot. by destruct (calls !! i).
  - by rewrite complete_other.
Qed.

(** The completion of a pending call writes the result of invoking that
    very call into its slot. *)
Lemma complete_fills (calls : list PendingCall) (now : nat)
    (acc : list (option ToolResult) * State) (i : nat) (c : PendingCall) :
  calls !! i = Some c → acc.1 !! i = Some None →
  (complete cfg calls now acc i).1 !! i
  = Some (Some (invoke_call cfg c now acc.2).1).
Proof.
  intros Hc Hslot. unfold complete. rewrite Hc, Hslot.
  destruct (invoke_call cfg c now acc.2) as [r st']. cbn.
  apply list_lookup_insert_eq. by eapply lookup_lt_Some.
Qed.

(** C6.  For every batch of calls, every completion order and every
    dispatcher state, [execute] returns exactly one resolved call per
    requested call, in the order of the request: the i-th output carries
    the tool name and the input of the i-th call, and its result is the
    result of invoking the i-th call itself, in the dispatcher state
    left by the completions that came before its own, wherever in the
    completion order that is; a call that never completes is resolved
    as a timeout of the dispatch deadline. *)
Theorem execute_preserves_order (calls : list PendingCall)
    (schedule : list nat) (now : nat) (st : State) :
  let out := (execute cfg calls schedule now st).1 in
  let pending := (replicate (length calls) None, st) in
  length out = length calls
  ∧ call_of <$> out = calls
  ∧ ∀ i c, calls !! i = Some c →
      ∃ r, out !! i = Some {| tool_name := req_tool c;
                              tool_input := req_input c;
                              tool_result := r |}
        ∧ (∀ before after,
             schedule = (before ++ i :: after)%list → i ∉ before →
             r = (invoke_call cfg c now
                    (foldl (complete cfg calls now) pending before).2).1)
        ∧ (i ∉ schedule →
             r = Failure ToolTimeout "dispatch deadline exceeded").
Proof.
  intros out pending. subst out. rewrite execute_slots. fold pending.
  pose proof (schedule_keeps_slots calls now schedule pending) as Hlen.
  cbn [fst] in Hlen. unfold pending at 2 in Hlen.
  cbn [fst] in Hlen. rewrite length_replicate in Hlen.
  split_and!.
  - apply length_zip_with_l_eq. by rewrite Hlen.
  - apply fmap_zip_with_l; [|by rewrite Hlen].
    intros [name input] slot. reflexivity.
  - intros i c Hc.
    assert (Hpending : pending.1 !! i = Some None).
    { apply lookup_replicate_2. by eapply lookup_lt_Some. }
    destruct (lookup_lt_is_Some_2
                (foldl (complete cfg calls now) pending schedule).1 i)
      as [slot Hslot].
    { rewrite Hlen. by eapply lookup_lt_Some. }
    exists (default (Failure ToolTimeout "dispatch deadline exceeded") slot).
    split_and!.
    + rewrite lookup_zip_with, Hc, Hslot. reflexivity.
    + intros before after Hschedule Hfirst.
      rewrite Hschedule, foldl_app in Hslot. cbn [foldl] in Hslot.
      rewrite (slot_sticky calls now i
                 (invoke_call cfg c now
                    (foldl (complete cfg calls now) pending before).2).1)
        in Hslot.
      * by inversion Hslot.
      * apply complete_fills; [done|]. by rewrite slot_untouched.
    + intros Hnever. rewrite slot_untouched, Hpending in Hslot by done.
      by inversion Hslot.
Qed.

End DispatcherProperties.

Section CacheProperties.
Import Js Core Core.Dispatcher.

Variable cfg : Config.

(** A value read from the cache comes from an entry that has not
    expired. *)
Lemma get_is_live (key : string * string) (now : nat)
    (c : gmap (string * string) CacheEntry) (v : json) :
  ResultCache.get key now c = Some v →
  ∃ e, c !! key = Some e ∧ value e = v ∧ now < expiry e.
Proof.
  unfold ResultCache.get. intros Hget.
  destruct (c !! key) as [e|]; [|done].
  destruct (now <? expiry e) eqn:Hlive; [|done].
  exists e. apply Nat.ltb_lt in Hlive. by simplify_eq.
Qed.

(** A read at or after the expiry time of the entry is a miss. *)
Lemma get_expired (key : string * string) (now : nat)
    (c : gmap (string * string) CacheEntry) :
  (∀ e, c !! key = Some e → expiry e ≤ now) →
  ResultCache.get key now c = None.
Proof.
  unfold ResultCache.get. intros Hexp.
  destruct (c !! key) as [e|]; [|done].
  specialize (Hexp e eq_refl).
  destruct (now <? expiry e) eqn:Hlive; [|done].
  apply Nat.ltb_lt in Hlive. lia.
Qed.

(** A miss runs the executor exactly once. *)
Lemma invoke_miss (spec : ToolSpec) (name : string) (input : ToolInput)
    (now : nat) (st : State) :
  ResultCache.get (cache_key cfg name input) now (cache st) = None →
  runs (invoke cfg spec name input now st).2 = runs st ++ [(name, input)].
Proof.
  intros Hmiss. unfold invoke. rewrite Hmiss.
  destruct (cacheable spec); destruct (run_executor spec input now);
    reflexivity.
Qed.

(** A hit leaves the dispatcher state alone. *)
Lemma invoke_hit (spec : ToolSpec) (name : string) (input : ToolInput)
    (now : nat) (st : State) (v : json) :
  cacheable spec = true →
  ResultCache.get (cache_key cfg name input) now (cache st) = Some v →
  invoke cfg spec name input now st = (Success v, st).
Proof. intros Hc Hhit. unfold invoke. by rewrite Hc, Hhit. Qed.

(** One invocation runs the executor at most once. *)
Lemma invoke_runs_once (spec : ToolSpec) (name : string) (input : ToolInput)
    (now : nat) (st : State) :
  runs (invoke cfg spec name input now st).2 = runs st
  ∨ runs (invoke cfg spec name input now st).2 = runs st ++ [(name, input)].
Proof.
  unfold invoke.
  destruct (if cacheable spec then _ else None) as [v|]; [by left|right].
  destruct (run_executor spec input now); reflexivity.
Qed.

(** After a successful invocation of a cacheable tool at [t1], the cache
    answers the same key until [t1 + ttl] unless the invocation itself
    was a hit. *)
Lemma invoke_success_cached (spec : ToolSpec) (name : string)
    (input : ToolInput) (t1 : nat) (st : State) :
  cacheable spec = true →
  is_success (invoke cfg spec name input t1 st).1 = true →
  runs (invoke cfg spec name input t1 st).2 = runs st
  ∨ ∃ v, (invoke cfg spec name input t1 st).1 = Success v
         ∧ cache (invoke cfg spec name input t1 st).2 !! cache_key cfg name input
           = Some {| value := v; expiry := t1 + ttl cfg |}.
Proof.
  intros Hc. unfold invoke. rewrite Hc.
  destruct (ResultCache.get _ t1 (cache st)) as [v|]; [by left|].
  destruct (run_executor spec input t1) as [v|k m]; [|done].
  intros _. right. exists v. split; [reflexivity|].
  cbn. unfold ResultCache.put. apply lookup_insert_eq.
Qed.

End CacheProperties.

Section LoopProperties.
Import Js Core Core.Loop.

Variable cfg : Config.
Variable w : World.
Variables id text : string.

Abbreviation step := (Loop.step cfg w id text).
Abbreviation run := (Loop.run cfg w id text).

Abbreviation healthy := (Loop.healthy id).

Lemma step_done (st : State) : is_done st = true → step st = st.
Proof.
  unfold is_done, Loop.step. destruct (phase st); try discriminate. done.
Qed.

Lemma run_S (n : nat) (st : State) : run (S n) st = run n (step st).
Proof. unfold Loop.run. apply Nat.iter_succ_r. Qed.

Lemma run_done (n : nat) (st : State) : is_done st = true → run n st = st.
Proof.
  intros Hd. induction n as [|n IH]; [reflexivity|].
  by rewrite run_S, step_done.
Qed.

Lemma run_add (n m : nat) (st : State) : run (n + m) st = run m (run n st).
Proof.
  revert st. induction n as [|n IH]; intros st; [reflexivity|].
  cbn [Nat.add]. by rewrite !run_S, IH.
Qed.

(** [record] touches only the phase and the store. *)
Lemma record_frame (m : Message) (now : nat) (next : Phase) (st : State) :
  let st' := record id m now next st in
  round st' = round st ∧ dispatches st' = dispatches st
  ∧ (phase st' = next ∨ phase st' = Done (Err NotFound)).
Proof.
  unfold record, ConversationStore.append.
  destruct (store st !! id); cbn; auto.
Qed.

Lemma record_known (m : Message) (now : nat) (next : Phase) (st : State) :
  is_Some (store st !! id) →
  let st' := record id m now next st in
  phase st' = next ∧ is_Some (store st' !! id).
Proof.
  intros [c Hc]. unfold record, ConversationStore.append. rewrite Hc. cbn.
  split; [reflexivity|]. rewrite lookup_insert_eq. by eexists.
Qed.

Lemma record_unknown (m : Message) (now : nat) (next : Phase) (st : State) :
  store st !! id = None →
  record id m now next st = set_phase (Done (Err NotFound)) st.
Proof.
  intros Hc. unfold record, ConversationStore.append. by rewrite Hc.
Qed.

Lemma retry_requests_tools (attempts k : nat) (history : list Message) :
  always_requests_tools w → 1 ≤ attempts →
  ∃ calls, decide_with_retry w attempts k history
           = (Some (ToolRequest calls), S k).
Proof.
  intros Htools Hpos. destruct attempts as [|n]; [lia|].
  destruct (Htools k history) as [calls Hcalls].
  exists calls. cbn. by rewrite Hcalls.
Qed.

Lemma retry_gateway_down (attempts k : nat) (history : list Message) :
  gateway_down w →
  decide_with_retry w attempts k history = (None, attempts + k).
Proof.
  intros Hdown. revert k. induction attempts as [|n IH]; intros k.
  - reflexivity.
  - cbn [decide_with_retry]. destruct (Hdown k history) as [e ->].
    rewrite IH. f_equal. lia.
Qed.

(** *** One transition from each phase *)

Lemma step_start (st : State) :
  phase st = Start →
  round (step st) = round st ∧ dispatches (step st) = dispatches st
  ∧ (phase (step st) = AwaitingDecision ∨ is_done (step st) = true)
  ∧ (is_Some (store st !! id) →
       phase (step st) = AwaitingDecision ∧ healthy (step st))
  ∧ (store st !! id = None → phase (step st) = Done (Err NotFound)).
Proof.
  intros Hp. unfold Loop.step. rewrite Hp.
  match goal with |- context [record id ?m ?now ?next st] =>
    pose proof (record_frame m now next st) as (Hr & Hd & Hph);
    pose proof (record_known m now next st) as Hk;
    pose proof (record_unknown m now next st) as Hu;
    cbv zeta in Hk; set (st' := record id m now next st) in *
  end.
  repeat split; auto.
  - destruct Hph as [->| Hph]; [by left|right]. unfold is_done. by rewrite Hph.
  - by apply Hk.
  - by apply Hk.
  - intros e. destruct (Hk H) as [-> _]. done.
  - intros Hnone. by rewrite (Hu Hnone).
Qed.

Lemma step_awaiting (st : State) :
  phase st = AwaitingDecision →
  round (step st) = round st ∧ dispatches (step st) = dispatches st
  ∧ (is_done (step st) = true
     ∨ (∃ t, phase (step st) = Answering t)
     ∨ (∃ calls, phase (step st) = Dispatching calls))
  ∧ (healthy st → healthy (step st)).
Proof.
  intros Hp. unfold Loop.step. rewrite Hp.
  unfold ConversationStore.history.
  destruct (store st !! id) as [c|] eqn:Hc.
  2: { repeat split; auto; destruct H as [[? Hs] _]; congruence. }
  destruct (decide_with_retry w (MAX_ATTEMPTS cfg) (gateway_calls st)
              (messages c)) as [[[t|calls]|] k].
  - repeat split; eauto; cbn; try (by eexists); done.
  - repeat split; eauto; cbn; try (by eexists); done.
  - match goal with |- context [record id ?m ?now ?next ?s] =>
      pose proof (record_frame m now next s) as (Hr & Hd & Hph);
      pose proof (record_known m now next s) as Hk;
      cbv zeta in Hk; set (st' := record id m now next s) in *
    end.
    cbn in Hr, Hd. repeat split; auto.
    + left. unfold is_done. by destruct Hph as [->| ->].
    + apply Hk. cbn. by eexists.
    + intros e. destruct Hk as [-> _]; [cbn; by eexists|done].
Qed.

Lemma step_awaiting_tools (st : State) :
  phase st = AwaitingDecision → healthy st →
  always_requests_tools w → 1 ≤ MAX_ATTEMPTS cfg →
  ∃ calls, phase (step st) = Dispatching calls.
Proof.
  intros Hp [[c Hc] _] Htools Hpos. unfold Loop.step. rewrite Hp.
  unfold ConversationStore.history. rewrite Hc.
  destruct (retry_requests_tools (MAX_ATTEMPTS cfg) (gateway_calls st)
              (messages c) Htools Hpos) as [calls ->].
  by exists calls.
Qed.

Lemma step_awaiting_down (st : State) :
  phase st = AwaitingDecision → healthy st → gateway_down w →
  phase (step st) = Done (Ok (error_answer cfg)).
Proof.
  intros Hp [[c Hc] _] Hdown. unfold Loop.step. rewrite Hp.
  unfold ConversationStore.history. rewrite Hc.
  rewrite retry_gateway_down by done.
  apply record_known. cbn. by eexists.
Qed.

Lemma step_answering (st : State) (t : string) :
  phase st = Answering t →
  round (step st) = round st ∧ dispatches (step st) = dispatches st
  ∧ is_done (step st) = true
  ∧ (healthy st → phase (step st) = Done (Ok t) ∧ healthy (step st)).
Proof.
  intros Hp. unfold Loop.step. rewrite Hp.
  match goal with |- context [record id ?m ?now ?next st] =>
    pose proof (record_frame m now next st) as (Hr & Hd & Hph);
    pose proof (record_known m now next st) as Hk;
    cbv zeta in Hk; set (st' := record id m now next st) in *
  end.
  split_and!; [done | done | |].
  - unfold is_done. by destruct Hph as [->| ->].
  - intros [Hs _]. destruct (Hk Hs) as [Hdone Hs'].
    split; [done|]. split; [done|]. rewrite Hdone. done.
Qed.

Lemma step_dispatching (st : State) (calls : list PendingCall) :
  phase st = Dispatching calls →
  round (step st) = S (round st) ∧ dispatches (step st) = S (dispatches st)
  ∧ (is_done (step st) = true
     ∨ (phase (step st) = AwaitingDecision ∧ S (round st) ≤ MAX_ROUNDS cfg))
  ∧ (healthy st →
       healthy (step st)
       ∧ phase (step st) =
           if MAX_ROUNDS cfg <? S (round st)
           then Done (Ok (degraded_answer cfg)) else AwaitingDecision).
Proof.
  intros Hp. unfold Loop.step. rewrite Hp.
  destruct (Dispatcher.execute cfg _ _ _ _) as [dispatched d'].
  cbv zeta.
  match goal with |- context [record id ?m ?now AwaitingDecision ?s] =>
    pose proof (record_frame m now AwaitingDecision s) as (Hr & Hd & Hph);
    pose proof (record_known m now AwaitingDecision s) as Hk;
    cbv zeta in Hk; set (st1 := record id m now AwaitingDecision s) in *
  end.
  cbn in Hr, Hd, Hk.
  destruct Hph as [Hph|Hph]; rewrite Hph; cycle 1.
  { split_and!; [done | done | left; unfold is_done; by rewrite Hph |].
    intros [Hs _]. destruct (Hk Hs); congruence. }
  rewrite Hr. destruct (MAX_ROUNDS cfg <? S (round st)) eqn:Hmax.
  - match goal with |- context [record id ?m ?now ?next st1] =>
      pose proof (record_frame m now next st1) as (Hr2 & Hd2 & Hph2);
      pose proof (record_known m now next st1) as Hk2;
      cbv zeta in Hk2; set (st2 := record id m now next st1) in *
    end.
    rewrite Hr2, Hd2, Hr, Hd. split_and!; [done | done | |].
    + left. unfold is_done. by destruct Hph2 as [->| ->].
    + intros [Hs _]. destruct (Hk Hs) as [_ Hs1].
      destruct (Hk2 Hs1) as [Hdone Hs2].
      split; [|done]. split; [done|]. rewrite Hdone. done.
  - apply Nat.ltb_ge in Hmax. split_and!; [done | done | |].
    + right. split; [done|lia].
    + intros [Hs _]. destruct (Hk Hs) as [_ Hs1].
      split; [|done]. split; [done|]. rewrite Hph. done.
Qed.

Lemma step_healthy (st : State) : healthy st → healthy (step st).
Proof.
  intros Hh. destruct (phase st) eqn:Hp.
  - by apply step_start, Hh.
  - by apply step_awaiting.
  - by eapply step_answering.
  - by eapply step_dispatching.
  - rewrite step_done; [done|]. unfold is_done. by rewrite Hp.
Qed.

Lemma run_healthy (n : nat) (st : State) : healthy st → healthy (run n st).
Proof.
  revert st. induction n as [|n IH]; intros st Hh; [done|].
  rewrite run_S. by apply IH, step_healthy.
Qed.

Lemma healthy_done (st : State) :
  healthy st → is_done st = true → ∃ t, phase st = Done (Ok t).
Proof.
  intros [_ Hne]. unfold is_done.
  destruct (phase st) as [| | |  |[t|e]]; try done.
  - by exists t.
  - by destruct (Hne e).
Qed.

(** *** Termination *)

Lemma run_round (n : nat) (st : State) :
  run (2 * S n) st = run (2 * n) (step (step st)).
Proof. replace (2 * S n) with (S (S (2 * n))) by lia. by rewrite !run_S. Qed.

(** From AwaitingDecision with at most [m] rounds left after the
    current one, two transitions per round end the turn, after at most
    [m + 1] dispatches. *)
Lemma awaiting_terminates (m : nat) :
  ∀ st, phase st = AwaitingDecision → MAX_ROUNDS cfg ≤ round st + m →
    is_done (run (2 * S m) st) = true
    ∧ dispatches (run (2 * S m) st) ≤ dispatches st + S m.
Proof.
  induction m as [|m IH]; intros st Hp Hround; rewrite run_round;
    destruct (step_awaiting st Hp) as (Hr & Hd & Hnext & _);
    destruct Hnext as [Hdone|[[t Ht]|[calls Hc]]].
  1,4: rewrite (step_done _ Hdone), run_done by done; split; [done|lia].
  1,3: destruct (step_answering _ t Ht) as (_ & Hd' & Hdone & _);
       rewrite run_done by done; split; [done|lia].
  - destruct (step_dispatching _ calls Hc) as (_ & Hd' & Hnext & _).
    destruct Hnext as [Hdone|[_ Hle]]; [|lia].
    rewrite run_done by done; split; [done|lia].
  - destruct (step_dispatching _ calls Hc) as (Hr' & Hd' & Hnext & _).
    destruct Hnext as [Hdone|[Hp' Hle]].
    + rewrite run_done by done; split; [done|lia].
    + destruct (IH (step (step st)) Hp') as [Hfin Hcount]; [lia|].
      split; [done|lia].
Qed.

(** Against a gateway that always requests tools, every remaining round
    dispatches and the turn ends with the degraded answer. *)
Lemma awaiting_degrades (m : nat) :
  always_requests_tools w → 1 ≤ MAX_ATTEMPTS cfg →
  ∀ st, phase st = AwaitingDecision → healthy st →
    round st + m = MAX_ROUNDS cfg →
    phase (run (2 * S m) st) = Done (Ok (degraded_answer cfg))
    ∧ dispatches (run (2 * S m) st) = dispatches st + S m.
Proof.
  intros Htools Hpos.
  induction m as [|m IH]; intros st Hp Hh Hround; rewrite run_round;
    destruct (step_awaiting st Hp) as (Hr & Hd & _ & Hh');
    specialize (Hh' Hh);
    destruct (step_awaiting_tools st Hp Hh Htools Hpos) as [calls Hc];
    destruct (step_dispatching _ calls Hc) as (Hr' & Hd' & _ & Hnext);
    destruct (Hnext Hh') as [Hh'' Hp'].
  - rewrite (proj2 (Nat.ltb_lt _ _)) in Hp' by lia.
    rewrite Nat.mul_0_r.
    change (run 0 (step (step st))) with (step (step st)).
    split; [done|lia].
  - rewrite (proj2 (Nat.ltb_ge _ _)) in Hp' by lia.
    destruct (IH (step (step st)) Hp' Hh'') as [Hfin Hcount]; [lia|].
    split; [done|lia].
Qed.

(** Whatever value the round counter starts from, a gateway that always
    requests tools ends with the degraded answer. *)
Lemma awaiting_degrades_any (m : nat) :
  always_requests_tools w → 1 ≤ MAX_ATTEMPTS cfg →
  ∀ st, phase st = AwaitingDecision → healthy st →
    MAX_ROUNDS cfg ≤ round st + m →
    phase (run (2 * S m) st) = Done (Ok (degraded_answer cfg)).
Proof.
  intros Htools Hpos.
  induction m as [|m IH]; intros st Hp Hh Hround; rewrite run_round;
    destruct (step_awaiting st Hp) as (Hr & Hd & _ & Hh');
    specialize (Hh' Hh);
    destruct (step_awaiting_tools st Hp Hh Htools Hpos) as [calls Hc];
    destruct (step_dispatching _ calls Hc) as (Hr' & Hd' & _ & Hnext);
    destruct (Hnext Hh') as [Hh'' Hp'].
  - rewrite (proj2 (Nat.ltb_lt _ _)) in Hp' by lia.
    by rewrite Nat.mul_0_r.
  - destruct (MAX_ROUNDS cfg <? S (round (step st))) eqn:Hmax.
    + rewrite run_done; [done|]. unfold is_done. by rewrite Hp'.
    + apply IH; [done | done |]. lia.
Qed.

(** The whole turn, for any initial value [r0] of the round counter. *)
Lemma loop_from_round (r0 : nat) (s : gmap string Conversation)
    (d : Dispatcher.State) :
  let fuel := S (2 * S (MAX_ROUNDS cfg - r0)) in
  let final := run fuel (init_from r0 s d) in
  is_done final = true
  ∧ dispatches final ≤ S (MAX_ROUNDS cfg - r0)
  ∧ (s !! id = None → phase final = Done (Err NotFound))
  ∧ (is_Some (s !! id) →
       (∃ t, phase final = Done (Ok t))
       ∧ is_Some (store final !! id)
       ∧ (always_requests_tools w → 1 ≤ MAX_ATTEMPTS cfg →
            phase final = Done (Ok (degraded_answer cfg))
            ∧ (r0 ≤ MAX_ROUNDS cfg →
               dispatches final = S (MAX_ROUNDS cfg - r0)))
       ∧ (gateway_down w → phase final = Done (Ok (error_answer cfg)))).
Proof.
  intros fuel final. subst fuel final. rewrite run_S.
  set (st0 := init_from r0 s d).
  assert (Hp0 : phase st0 = Start) by done.
  destruct (step_start st0 Hp0) as (Hr & Hd & Hnext & Hknown & Hunknown).
  change (round st0) with r0 in Hr. change (dispatches st0) with 0 in Hd.
  change (store st0) with s in Hknown, Hunknown.
  assert (Hterm : is_done (run (2 * S (MAX_ROUNDS cfg - r0)) (step st0)) = true
                  ∧ dispatches (run (2 * S (MAX_ROUNDS cfg - r0)) (step st0))
                    ≤ S (MAX_ROUNDS cfg - r0)).
  { destruct Hnext as [Hp|Hdone].
    - destruct (awaiting_terminates (MAX_ROUNDS cfg - r0) (step st0) Hp)
        as [? ?]; [lia|]. split; [done|lia].
    - rewrite run_done by done. split; [done|lia]. }
  destruct Hterm as [Hfin Hcount]. split_and!; [done | done | |].
  - intros Hnone. rewrite run_done; [by apply Hunknown|].
    unfold is_done. by rewrite (Hunknown Hnone).
  - intros Hsome. destruct (Hknown Hsome) as [Hp Hh].
    pose proof (run_healthy (2 * S (MAX_ROUNDS cfg - r0)) _ Hh) as Hfinal.
    split_and!.
    + by apply healthy_done.
    + apply Hfinal.
    + intros Htools Hpos. split.
      * apply (awaiting_degrades_any (MAX_ROUNDS cfg - r0) Htools Hpos);
          [done | done | lia].
      * intros Hr0.
        destruct (awaiting_degrades (MAX_ROUNDS cfg - r0) Htools Hpos
                    (step st0) Hp Hh) as [? ?]; lia.
    + intros Hdown.
      pose proof (step_awaiting_down (step st0) Hp Hh Hdown) as Hdn.
      assert (Hd1 : is_done (step (step st0)) = true)
        by (unfold is_done; by rewrite Hdn).
      by rewrite run_round, (step_done _ Hd1), run_done.
Qed.

(** More transitions than needed change nothing. *)
Lemma loop_stable (s : gmap string Conversation) (d : Dispatcher.State)
    (n : nat) :
  S (2 * S (MAX_ROUNDS cfg - FIRST_ROUND cfg)) ≤ n →
  run n (init cfg s d)
  = run (S (2 * S (MAX_ROUNDS cfg - FIRST_ROUND cfg))) (init cfg s d).
Proof.
  intros Hn.
  replace n with (S (2 * S (MAX_ROUNDS cfg - FIRST_ROUND cfg))
                  + (n - S (2 * S (MAX_ROUNDS cfg - FIRST_ROUND cfg)))) at 1 by lia.
  rewrite run_add. apply run_done.
  apply (loop_from_round (FIRST_ROUND cfg) s d).
Qed.

End LoopProperties.

Section TurnProperties.
Import Js Core.

Variable cfg : Config.
Variable w : World.

(** The final state of the loop for a turn on conversation [id]. *)
Lemma handleTurn_runs (cid : option string) (text : string)
    (ss : ServerState) :
  let start :=
    match cid with
    | Some id => (id, conversations ss)
    | None =>
        ConversationStore.create (new_id w) (clock w 0) (conversations ss)
    end in
  let final := Loop.run cfg w start.1 text (enough_fuel cfg)
                 (Loop.init cfg start.2 (tools ss)) in
  handleTurn cfg w (enough_fuel cfg) cid text ss =
  match Loop.phase final with
  | Loop.Done (Ok t) =>
      Some (Ok {| response := t; conversation_id := start.1;
                  turn_tool_calls := Loop.trace final |},
            {| conversations := Loop.store final;
               tools := Loop.dispatcher final |})
  | Loop.Done (Err e) =>
      Some (Err e, {| conversations := Loop.store final;
                      tools := Loop.dispatcher final |})
  | _ => None
  end.
Proof.
  unfold handleTurn. destruct cid as [id|]; reflexivity.
Qed.

Lemma enough_fuel_stable (id text : string) (s : gmap string Conversation)
    (d : Dispatcher.State) :
  Loop.run cfg w id text (enough_fuel cfg) (Loop.init cfg s d)
  = Loop.run cfg w id text (S (2 * S (MAX_ROUNDS cfg - FIRST_ROUND cfg)))
      (Loop.init cfg s d).
Proof. apply loop_stable. unfold enough_fuel. lia. Qed.

(** A turn on a conversation that exists completes with an answer. *)
Lemma handleTurn_answers (cid : option string) (text : string)
    (ss : ServerState) :
  (∀ id, cid = Some id → is_Some (conversations ss !! id)) →
  ∃ r ss',
    handleTurn cfg w (enough_fuel cfg) cid text ss = Some (Ok r, ss')
    ∧ conversation_id r =
        match cid with
        | Some id => id
        | None => new_id w (dom (conversations ss))
        end
    ∧ is_Some (conversations ss' !! conversation_id r)
    ∧ (gateway_down w → response r = error_answer cfg)
    ∧ (always_requests_tools w → 1 ≤ MAX_ATTEMPTS cfg →
         1 ≤ MAX_ROUNDS cfg → response r = degraded_answer cfg).
Proof.
  intros Hknown. rewrite handleTurn_runs. cbv zeta.
  set (start := match cid with
                | Some id => (id, conversations ss)
                | None => ConversationStore.create (new_id w) (clock w 0)
                            (conversations ss)
                end).
  assert (Hid : start.1 = match cid with
                          | Some id => id
                          | None => new_id w (dom (conversations ss))
                          end)
    by (subst start; by destruct cid).
  assert (Hsome : is_Some (start.2 !! start.1)).
  { subst start. destruct cid as [id|]; cbn.
    - by apply Hknown.
    - rewrite lookup_insert_eq. by eexists. }
  rewrite enough_fuel_stable.
  destruct (loop_from_round cfg w start.1 text (FIRST_ROUND cfg) start.2
              (tools ss)) as (_ & _ & _ & Hk).
  destruct (Hk Hsome) as ([t Ht] & Hstore & Hdeg & Hdown).
  change (Loop.init_from (FIRST_ROUND cfg) start.2 (tools ss))
    with (Loop.init cfg start.2 (tools ss)) in *.
  rewrite Ht. eexists _, _. split; [reflexivity|]. cbn.
  split_and!; [done | done | |].
  - intros Hd. specialize (Hdown Hd). congruence.
  - intros Htools Hpos Hmax.
    destruct (Hdeg Htools Hpos) as [Hp _]. congruence.
Qed.


End TurnProperties.

(* ===================================================================== *)
(** * The claims that span client and core                                *)
(* ===================================================================== *)

Section EndToEnd.
Import Js Eff Core.

Variable env : option string.
Variable cfg : Config.
Variable w : World.

(** C1.  Deleting a conversation always succeeds, whether or not the id
    is known: afterwards the id is absent and the other conversations
    are untouched; deleting an absent id changes nothing; deleting again
    gives the same state and the same response; the response is a
    success without a body, and the client's deleteConversation, given
    that response, returns normally without logging an error. *)
Theorem delete_conversation_idempotent (net : Api.Net) {S : Type} (s : S)
    (id : string) (ss : ServerState) :
  let served := route_delete id ss in
  conversations served.2 !! id = None
  ∧ (∀ other, other ≠ id →
       conversations served.2 !! other = conversations ss !! other)
  ∧ (conversations ss !! id = None → served.2 = ss)
  ∧ route_delete id served.2 = served
  ∧ Api.ok served.1 = true
  ∧ (Api.fetch_delete net (Api.deleteConversation_request env id)
       = Returned served.1 →
     exec (Api.deleteConversation env net id) s
       = (Returned tt, s, [EvFetch (Api.deleteConversation_request env id)])).
Proof.
  intros served. subst served.
  unfold route_delete, deleteConversation, ConversationStore.delete.
  cbn [fst snd conversations tools Api.ok]. split_and!.
  - apply lookup_delete_eq.
  - intros other Hne. by apply lookup_delete_ne.
  - intros Habsent. rewrite delete_id by done. by destruct ss.
  - by rewrite delete_delete_eq.
  - reflexivity.
  - intros Hfetch. unfold exec. rewrite deleteConversation_exec, Hfetch.
    reflexivity.
Qed.

(** C3 (amended).  A turn sent to the core without a conversation id
    creates a conversation and returns its id (an id that was not in use
    when the generator yields fresh ids).  On the client, when a turn is
    sent while no id is held and its answer carries a non-empty id, the
    client holds that id afterwards; through every later sequence of
    turns, whatever the network does and whatever ids later answers
    carry, the held id stays the same and every request carries it. *)
Theorem conversation_id_adopted_and_kept
    (text0 : string) (ss : ServerState)
    (st : Chat.ChatState) (text : string) (net : Api.Net)
    (r : Api.AgentResponse) (script : list (string * Api.Net)) :
  (∃ res ss',
     handleTurn cfg w (enough_fuel cfg) None text0 ss = Some (Ok res, ss')
     ∧ is_Some (conversations ss' !! conversation_id res)
     ∧ (fresh_ids w → conversations ss !! conversation_id res = None))
  ∧ (Chat.conversationId st = None →
     trim text ≠ "" →
     Api.fetch_agent net (Api.queryAgent_request env text None)
       = Returned (Api.RespOk (Returned r)) →
     Api.conversation_id r ≠ "" →
     let after := Chat.turn env text net st in
     Chat.conversationId after.1 = Some (Api.conversation_id r)
     ∧ Chat.conversationId (Chat.turns env script after.1).1
         = Some (Api.conversation_id r)
     ∧ Forall (Chat.carries_id env (Api.conversation_id r))
              (Chat.turns env script after.1).2).
Proof.
  split.
  - destruct (handleTurn_answers cfg w None text0 ss)
      as (res & ss' & Hrun & Hid & Hstore & _); [done|].
    exists res, ss'. split_and!; [done | done |].
    intros Hfresh. rewrite Hid. apply not_elem_of_dom, Hfresh.
  - intros Hnone Htext Hfetch Hid after.
    pose proof (turn_adopts_id env net st text r Hnone Htext Hfetch Hid)
      as Hheld.
    fold after in Hheld. split; [exact Hheld|].
    by apply turns_keep_id.
Qed.


End EndToEnd.

(* ===================================================================== *)
(** * Concrete instances                                                  *)
(* ===================================================================== *)

Section Instances.
Import Js Eff Core Examples.

(** C3 as stated fails when the answer carries the empty string as
    conversation id: the turn was sent without an id and the answer
    arrived, yet the client holds no id afterwards and sends the next
    turn without an id again. *)
Lemma empty_conversation_id_not_held :
  let net := replying reply_empty_id in
  let after := Chat.turn None "Hello" net Chat.initialState in
  Chat.conversationId Chat.initialState = None
  ∧ Api.fetch_agent net (Api.queryAgent_request None "Hello" None)
      = Returned (Api.RespOk (Returned reply_empty_id))
  ∧ Chat.conversationId after.1 ≠ Some (Api.conversation_id reply_empty_id)
  ∧ (Chat.turn None "Anyone there?" net after.1).2
      = [EvPreventDefault;
         EvFetch (Api.queryAgent_request None "Anyone there?" None)].
Proof. cbv zeta. split_and!; try reflexivity. vm_compute. discriminate. Qed.

(** C8 as stated fails for an ok response whose body is not JSON: the
    response is ok, yet checkHealth reports [isHealthy: false]. *)
Lemma checkHealth_ok_but_unhealthy :
  ∃ resp,
    Api.fetch_health health_not_json (Api.checkHealth_request None)
      = Returned resp
    ∧ Api.ok resp = true
    ∧ (exec (Api.checkHealth None health_not_json) tt).1.1
        = Returned {| Api.isHealthy := false; Api.apiKeyConfigured := None |}.
Proof. eexists. split_and!; reflexivity. Qed.

Lemma handleSubmit_blank_noop_witness :
  let st := Chat.typeText "   " Chat.initialState in
  trim (Chat.input st) = ""
  ∧ Chat.fire (Chat.handleSubmit None offline) st
      = (Returned tt, st, [EvPreventDefault]).
Proof.
  cbv zeta. split; [reflexivity|].
  apply (handleSubmit_blank_noop None offline). reflexivity.
Defined.

Lemma insistent_requests_tools : always_requests_tools insistent.
Proof. intros k history. eexists. reflexivity. Qed.


Lemma insistent_fresh : fresh_ids insistent.
Proof. intros X. apply is_fresh. Qed.

Lemma delete_conversation_idempotent_witness :
  let served := route_delete "never-created" server in
  let net := served_by "never-created" server in
  served.2 = server
  ∧ exec (Api.deleteConversation None net "never-created") tt
      = (Returned tt, tt,
         [EvFetch (Api.deleteConversation_request None "never-created")]).
Proof.
  cbv zeta.
  destruct (delete_conversation_idempotent None
              (served_by "never-created" server) tt "never-created" server)
    as (_ & _ & Habsent & _ & _ & Hclient).
  split; [apply Habsent; reflexivity | apply Hclient; reflexivity].
Defined.

Lemma conversation_id_adopted_and_kept_witness :
  let script := [("And in Tokyo?", replying reply_more);
                 ("Still there?", offline)] in
  let after :=
    Chat.turn None "Calculate 15 * (23 + 7)" (replying reply_450)
      Chat.initialState in
  (∃ res ss',
     handleTurn config insistent (enough_fuel config) None "Hello" server
       = Some (Ok res, ss')
     ∧ is_Some (conversations ss' !! conversation_id res)
     ∧ conversations server !! conversation_id res = None)
  ∧ Chat.conversationId after.1 = Some "7f3a"
  ∧ Chat.conversationId (Chat.turns None script after.1).1 = Some "7f3a"
  ∧ Forall (Chat.carries_id None "7f3a") (Chat.turns None script after.1).2.
Proof.
  cbv zeta.
  destruct (conversation_id_adopted_and_kept None config insistent "Hello"
              server Chat.initialState "Calculate 15 * (23 + 7)"
              (replying reply_450) reply_450
              [("And in Tokyo?", replying reply_more);
               ("Still there?", offline)])
    as [(res & ss' & Hrun & Hstore & Hnew) Hclient].
  split.
  - exists res, ss'. split; [exact Hrun|]. split; [exact Hstore|].
    apply Hnew, insistent_fresh.
  - apply Hclient; [reflexivity | vm_compute; discriminate | reflexivity
                    | discriminate].
Defined.


(** The client does surface a rejected delete: on a 404 answer
    deleteConversation logs and throws the detail of the error body. *)
Lemma deleteConversation_rejected_throws :
  exec (Api.deleteConversation None delete_not_found "7f3a") tt
  = (Thrown (mkError "Conversation not found"), tt,
     [EvFetch (Api.deleteConversation_request None "7f3a");
      EvConsoleError "Error deleting conversation:"
        (mkError "Conversation not found")]).
Proof. reflexivity. Qed.

(** startNewConversation swallows that error: it is logged a second time
    by the handler and the local reset still happens. *)
Lemma startNewConversation_after_rejected_delete :
  let held :=
    {| Chat.messages := [Chat.errorMessage]; Chat.input := "";
       Chat.isLoading := false; Chat.apiStatus := Chat.connected;
       Chat.conversationId := Some "7f3a"; Chat.statusMessage := None |} in
  Chat.fire (Chat.startNewConversation None delete_not_found) held
  = (Returned tt,
     {| Chat.messages := []; Chat.input := "";
        Chat.isLoading := false; Chat.apiStatus := Chat.connected;
        Chat.conversationId := None; Chat.statusMessage := None |},
     [EvFetch (Api.deleteConversation_request None "7f3a");
      EvConsoleError "Error deleting conversation:"
        (mkError "Conversation not found");
      EvConsoleError "Error deleting conversation:"
        (mkError "Conversation not found")]).
Proof. reflexivity. Qed.

(** C6 on a batch of three calls of which the third completes first,
    the first completes second and the second never completes: the
    third slot holds the result of the third call run on the idle
    dispatcher, and the second slot the deadline timeout. *)
Lemma execute_preserves_order_witness :
  let third := {| req_tool := "get_weather"; req_input := tokyo |} in
  let second := {| req_tool := "calculate";
                   req_input := [("expression", JStr "15 * (23 + 7)")] |} in
  let calls := [ {| req_tool := "search_web"; req_input := about_nlp |};
                 second; third ] in
  let out := (Dispatcher.execute config calls [2; 0] 10 idle).1 in
  calls !! 2 = Some third
  ∧ calls !! 1 = Some second
  ∧ out !! 2 = Some {| tool_name := "get_weather"; tool_input := tokyo;
                       tool_result := Success (JStr "18C, clear sky") |}
  ∧ out !! 1 = Some {| tool_name := "calculate";
                       tool_input := [("expression", JStr "15 * (23 + 7)")];
                       tool_result :=
                         Failure ToolTimeout "dispatch deadline exceeded" |}.
Proof.
  intros third second calls out.
  destruct (execute_preserves_order config calls [2; 0] 10 idle)
    as (_ & _ & Hslots).
  split_and!; [reflexivity | reflexivity | |].
  - destruct (Hslots 2 third eq_refl) as (r & Hout & Hdone & _).
    rewrite (Hdone [] [0] eq_refl (not_elem_of_nil 2)) in Hout.
    exact Hout.
  - destruct (Hslots 1 second eq_refl) as (r & Hout & _ & Hnever).
    rewrite Hnever in Hout; [exact Hout|].
    intros Hin. apply elem_of_cons in Hin as [Hin|Hin]; [discriminate|].
    apply elem_of_cons in Hin as [Hin|Hin]; [discriminate|].
    by apply elem_of_nil in Hin.
Defined.

End Instances.

(* ===================================================================== *)
(** * Further properties of the client                                    *)
(* ===================================================================== *)

Section TrimProperties.
Import Js Ui.

Lemma trimStart_empty (s : string) :
  trimStart s = "" ↔ has_content s = false.
Proof.
  unfold has_content. induction s as [|c rest IH]; cbn; [done|].
  destruct (is_white_space c); cbn; [exact IH|]. split; discriminate.
Qed.

Lemma trimStart_content (s : string) :
  has_content (trimStart s) = has_content s.
Proof.
  unfold has_content. induction s as [|c rest IH]; cbn; [done|].
  destruct (is_white_space c) eqn:Hc; cbn; [exact IH|]. by rewrite Hc.
Qed.

Lemma existsb_rev {A} (f : A → bool) (l : list A) :
  existsb f (rev l) = existsb f l.
Proof.
  induction l as [|x l IH]; [done|]. cbn.
  rewrite existsb_app, IH. cbn. rewrite orb_false_r. apply orb_comm.
Qed.

Lemma reverse_content (s : string) :
  has_content (reverse_string s) = has_content s.
Proof.
  unfold has_content, reverse_string.
  rewrite String.list_ascii_of_string_of_list_ascii. apply existsb_rev.
Qed.

Lemma reverse_empty (s : string) : reverse_string s = "" ↔ s = "".
Proof.
  unfold reverse_string. split.
  - intros H. destruct s as [|c rest]; [done|]. cbn in H.
    destruct (rev (String.list_ascii_of_string rest)); discriminate.
  - by intros ->.
Qed.

(** [trim] gives the empty string exactly on strings made of white
    space only. *)
Lemma trim_truthy (s : string) : truthy (trim s) = has_content s.
Proof.
  assert (H : trim s = "" ↔ has_content s = false).
  { unfold trim, trimEnd. rewrite reverse_empty, trimStart_empty.
    by rewrite reverse_content, trimStart_content. }
  destruct (trim s) eqn:Ht, (has_content s) eqn:Hc; try done.
  - by destruct H as [H _]; specialize (H eq_refl).
  - by destruct H as [_ H]; specialize (H eq_refl).
Qed.

End TrimProperties.

Section HandlerProperties.
Import Js Eff Api Chat Ui.

Variable env : option string.

(** [handleSubmit] is its synchronous part followed, when a request is in
    flight, by the part that runs once the request settles. *)
Lemma handleSubmit_split (net : Net) (render s : ChatState)
    (log : list Event) :
  handleSubmit env net render s log =
  match handleSubmit_sync env render s log with
  | (Returned (Some req), s1, log1) =>
      handleSubmit_resume render (fetch_agent net req) s1 log1
  | (Returned None, s1, log1) => (Returned tt, s1, log1)
  | (Thrown e, s1, log1) => (Thrown e, s1, log1)
  end.
Proof.
  unfold handleSubmit, handleSubmit_sync, handleSubmit_resume, queryAgent,
    queryAgent_settle.
  destruct (truthy (trim (input render))); cbn [negb]; reflexivity.
Qed.

(** What the health poll does for each way the request can end. *)
Lemma checkApiHealth_exec (net : Net) (st : ChatState) :
  let req := checkHealth_request env in
  let shown status message log :=
    (Returned tt,
     {| messages := messages st; input := input st;
        isLoading := isLoading st; apiStatus := status;
        conversationId := conversationId st; statusMessage := message |},
     EvFetch req :: log) in
  let down := shown error (Some "Cannot connect to backend API") in
  exec (checkApiHealth env net) st =
  match fetch_health net req with
  | Returned (RespOk (Returned data)) =>
      match get_property data "api_key_configured" with
      | Returned field =>
          if js_truthy_opt field
          then shown connected None []
          else shown warning
                 (Some "API key not configured. Agent functionality limited.")
                 []
      | Thrown e => down [EvConsoleError "Health check failed:" e]
      end
  | Returned (RespOk (Thrown e)) => down [EvConsoleError "Health check failed:" e]
  | Returned (RespNotOk _) => down []
  | Thrown e => down [EvConsoleError "Health check failed:" e]
  end.
Proof.
  intros req shown down. subst shown down.
  unfold exec, checkApiHealth, checkHealth. fold req.
  cbv [mbind mret eff_bind eff_ret bind ret try_catch console_error emit
       await modify setApiStatus setStatusMessage].
  destruct (fetch_health net req) as [[[data|e]|j]|e]; try reflexivity.
  destruct (get_property data "api_key_configured") as [field|e];
    [|reflexivity].
  cbn [isHealthy apiKeyConfigured negb].
  destruct (js_truthy_opt field); reflexivity.
Qed.

(** X1.  handleSubmit issues a request exactly when the input has a
    character that is not white space. *)
Theorem handleSubmit_requests_iff_content (net : Net) (st : ChatState) :
  (∃ req, EvFetch req ∈ (fire (handleSubmit env net) st).2)
  ↔ has_content (input st) = true.
Proof.
  rewrite handleSubmit_exec, trim_truthy.
  destruct (has_content (input st)); split; try done.
  - intros _. eexists.
    destruct (fetch_agent net _) as [[[r|e]|[d|e]]|e]; cbn;
      apply list_elem_of_further, list_elem_of_here.
  - intros [req Hin]. cbn in Hin.
    apply list_elem_of_singleton in Hin. discriminate.
Qed.

(** X2.  The text is sent and shown as typed: for an input with content,
    the first request is the only one, its body carries the untrimmed
    input as [query] and the held id as [conversation_id] exactly when
    that id is non-empty; the user message shows the untrimmed input and
    the input box is emptied. *)
Theorem handleSubmit_sends_input_verbatim (net : Net) (st : ChatState) :
  has_content (input st) = true →
  ∃ st' req rest,
    fire (handleSubmit env net) st
      = (Returned tt, st', EvPreventDefault :: EvFetch req :: rest)
    ∧ Forall (λ ev, match ev with EvFetch _ => False | _ => True end) rest
    ∧ method req = POST
    ∧ body req
        = Some (JObj (("query", JStr (input st)) ::
                      match conversationId st with
                      | Some (String c id) =>
                          [("conversation_id", JStr (String c id))]
                      | _ => []
                      end))
    ∧ input st' = ""
    ∧ messages st' !! length (messages st)
        = Some {| role := user; content := input st; toolCalls := None |}.
Proof.
  intros Hcontent. rewrite handleSubmit_exec, trim_truthy, Hcontent.
  assert (Hbody : body (queryAgent_request env (input st)
                          (or_undefined (conversationId st)))
                  = Some (JObj (("query", JStr (input st)) ::
                      match conversationId st with
                      | Some (String c id) =>
                          [("conversation_id", JStr (String c id))]
                      | _ => []
                      end))).
  { by destruct (conversationId st) as [[|c id]|]. }
  destruct (fetch_agent net _) as [[[r|e]|[d|e]]|e];
    eexists _, _, _; (split; [reflexivity|]);
    (split; [repeat constructor|]); (split; [reflexivity|]);
    (split; [exact Hbody|]); (split; [reflexivity|]); cbn;
    by rewrite lookup_app_r, Nat.sub_diag.
Qed.

(** The synchronous part of a submission with content. *)
Lemma handleSubmit_sync_run (st : ChatState) :
  has_content (input st) = true →
  let req := queryAgent_request env (input st)
               (or_undefined (conversationId st)) in
  exec (handleSubmit_sync env st) st
  = (Returned (Some req),
     {| messages := messages st
          ++ [{| role := user; content := input st; toolCalls := None |}];
        input := ""; isLoading := true; apiStatus := apiStatus st;
        conversationId := conversationId st;
        statusMessage := statusMessage st |},
     [EvPreventDefault; EvFetch req]).
Proof.
  intros Hcontent req. unfold exec, handleSubmit_sync.
  rewrite trim_truthy, Hcontent. reflexivity.
Qed.

(** X3.  While the request of a submission is pending (the state the
    component renders between the synchronous part of handleSubmit and
    the arrival of the reply) the loading flag is set: both form controls
    are disabled, the button reads "Thinking...", the input box is empty,
    the user message is already in the chat and New Conversation is
    enabled.  handleSubmit is that part followed by the resumption. *)
Theorem pending_submission_view (net : Net) (st : ChatState) :
  has_content (input st) = true →
  ∃ req pending,
    exec (handleSubmit_sync env st) st
      = (Returned (Some req), pending, [EvPreventDefault; EvFetch req])
    ∧ fire (handleSubmit env net) st
        = handleSubmit_resume st (fetch_agent net req) pending
            [EvPreventDefault; EvFetch req]
    ∧ isLoading pending = true
    ∧ formDisabled pending = true
    ∧ submitLabel pending = "Thinking..."
    ∧ input pending = ""
    ∧ messages pending
        = messages st
          ++ [{| role := user; content := input st; toolCalls := None |}]
    ∧ newConversationDisabled pending = false.
Proof.
  intros Hcontent.
  pose proof (handleSubmit_sync_run st Hcontent) as Hsync. cbv zeta in Hsync.
  eexists _, _. split; [exact Hsync|].
  split.
  { unfold fire, exec in *. by rewrite handleSubmit_split, Hsync. }
  split_and!; try reflexivity.
  unfold newConversationDisabled. cbn. rewrite length_app. cbn.
  apply Nat.eqb_neq. lia.
Qed.


(** What [startNewConversation] logs, from any live state. *)
Lemma startNewConversation_run (net : Net) (render s : ChatState)
    (log : list Event) :
  startNewConversation env net render s log =
  (Returned tt,
   {| messages := []; input := input s; isLoading := isLoading s;
      apiStatus := apiStatus s; conversationId := None;
      statusMessage := statusMessage s |},
   log ++
   match conversationId render with
   | Some (String c id) =>
       let req := deleteConversation_request env (String c id) in
       let failed e :=
         [EvFetch req; EvConsoleError "Error deleting conversation:" e;
          EvConsoleError "Error deleting conversation:" e] in
       match fetch_delete net req with
       | Returned (RespOk _) => [EvFetch req]
       | Returned (RespNotOk (Returned d)) =>
           failed (rejection d
                "An error occurred while deleting the conversation.")
       | Returned (RespNotOk (Thrown e)) => failed e
       | Thrown e => failed e
       end
   | _ => []
   end).
Proof.
  unfold startNewConversation.
  destruct (conversationId render) as [[|c id]|]; cbn [truthy].
  1,3: cbv [mbind mret eff_bind eff_ret bind ret modify setMessages
            setConversationId]; cbn; by rewrite app_nil_r.
  cbv [mbind mret eff_bind eff_ret bind ret try_catch console_error
       emit modify setMessages setConversationId].
  rewrite deleteConversation_exec.
  destruct (fetch_delete net _) as [[j|[d|e]]|e]; cbn;
    rewrite <- ?app_assoc; reflexivity.
Qed.

(** X5.  startNewConversation makes at most one request: a DELETE for the
    held conversation when a non-empty id is held, and no request at all
    otherwise; it never contacts the agent endpoint.  Apart from the
    message list and the held id it leaves the component state alone. *)
Theorem startNewConversation_requests (net : Net) (st : ChatState) :
  ∃ st' log,
    fire (startNewConversation env net) st = (Returned tt, st', log)
    ∧ List.filter (λ ev, match ev with EvFetch _ => true | _ => false end) log
        = match conversationId st with
          | Some (String c id) =>
              [EvFetch (deleteConversation_request env (String c id))]
          | _ => []
          end
    ∧ (∀ id, method (deleteConversation_request env id) = DELETE
             ∧ url (deleteConversation_request env id)
               = API_BASE_URL env +:+ "/api/conversations/" +:+ id)
    ∧ input st' = input st
    ∧ isLoading st' = isLoading st
    ∧ apiStatus st' = apiStatus st
    ∧ statusMessage st' = statusMessage st.
Proof.
  unfold fire, exec. rewrite startNewConversation_run.
  eexists _, _. split; [reflexivity|]. split_and!; try done.
  destruct (conversationId st) as [[|c id]|]; try reflexivity.
  cbn [app]. destruct (fetch_delete net _) as [[j|[d|e]]|e]; reflexivity.
Qed.

(** X6.  Pressing New Conversation again right after a reset does
    nothing: no request is made, nothing is logged and the state is the
    one the first press left. *)
Theorem startNewConversation_twice (net1 net2 : Net) (st : ChatState) :
  let once := (fire (startNewConversation env net1) st).1.2 in
  fire (startNewConversation env net2) once = (Returned tt, once, []).
Proof.
  unfold fire, exec. rewrite !startNewConversation_run. reflexivity.
Qed.

(** What the resumption does on the state [now] that is live when the
    request settles, for a handler created from the render [render]. *)
Lemma handleSubmit_resume_run (render now : ChatState) (log : list Event)
    (outcome : completion (Response AgentResponse)) :
  let after reply cid events :=
    (Returned tt,
     {| messages := messages now ++ [reply]; input := input now;
        isLoading := false; apiStatus := apiStatus now;
        conversationId := cid; statusMessage := statusMessage now |},
     log ++ events) in
  let failed e :=
    after errorMessage (conversationId now)
      [EvConsoleError "Error querying agent:" e;
       EvConsoleError "Error querying agent:" e] in
  handleSubmit_resume render outcome now log =
  match outcome with
  | Returned (RespOk (Returned r)) =>
      after {| role := assistant; content := response r;
               toolCalls := tool_calls r |}
            (if truthy (conversation_id r)
                && negb (truthy_opt (conversationId render))
             then Some (conversation_id r) else conversationId now)
            []
  | Returned (RespOk (Thrown e)) => failed e
  | Returned (RespNotOk (Returned d)) =>
      failed (rejection d
                "An error occurred while querying the agent.")
  | Returned (RespNotOk (Thrown e)) => failed e
  | Thrown e => failed e
  end.
Proof.
  intros after failed. subst after failed.
  unfold handleSubmit_resume, queryAgent_settle.
  cbv [mbind mret eff_bind eff_ret bind ret throw try_catch try_finally
       emit modify await console_error setMessages setIsLoading
       setConversationId].
  destruct outcome as [[[r|e]|[d|e]]|e];
    try (unfold rejection; destruct (get_property d "detail");
         try destruct (new_Error _));
    cbn [app messages input isLoading apiStatus conversationId
         statusMessage];
    try (destruct (truthy (conversation_id r)
                   && negb (truthy_opt (conversationId render)));
         cbn [app messages input isLoading apiStatus conversationId
              statusMessage]);
    rewrite <- ?app_assoc, ?app_nil_r; reflexivity.
Qed.

(** X7.  Pressing New Conversation while a submission is pending does
    not cancel it.  When the agent request settles after the reset has
    run to its end, its reply (or the apology)
    is appended to the emptied chat, which then holds that single
    assistant message and no user message.  Whether the id of the reply
    is adopted is decided by the id the submission was made with: a
    submission that carried an id leaves the client without an id, one
    that carried none adopts a non-empty id of the reply. *)
Theorem reply_after_reset (net netReset : Net) (st : ChatState) :
  has_content (input st) = true →
  ∃ log,
    submitResetReply env net netReset st =
    (Returned tt,
     {| messages :=
          [match fetch_agent net
                   (queryAgent_request env (input st)
                      (or_undefined (conversationId st))) with
           | Returned (RespOk (Returned r)) =>
               {| role := assistant; content := response r;
                  toolCalls := tool_calls r |}
           | _ => errorMessage
           end];
        input := ""; isLoading := false; apiStatus := apiStatus st;
        conversationId :=
          match fetch_agent net
                  (queryAgent_request env (input st)
                     (or_undefined (conversationId st))) with
          | Returned (RespOk (Returned r)) =>
              if truthy (conversation_id r)
                 && negb (truthy_opt (conversationId st))
              then Some (conversation_id r) else None
          | _ => None
          end;
        statusMessage := statusMessage st |},
     log).
Proof.
  intros Hcontent. unfold submitResetReply.
  pose proof (handleSubmit_sync_run st Hcontent) as Hsync. cbv zeta in Hsync.
  rewrite Hsync, startNewConversation_run, handleSubmit_resume_run.
  cbn [messages input isLoading apiStatus conversationId statusMessage app].
  destruct (fetch_agent net _) as [[[r|e]|[d|e]]|e];
    eexists; reflexivity.
Qed.

(** X8.  The "Tools Used" block of the messages a submission appends:
    the user message never has one, and the reply has one exactly when
    the request was answered with at least one tool call; an answer with
    an empty [tool_calls] array, like one without the field, and the
    apology show none. *)
Theorem tools_block_of_reply (net : Net) (st : ChatState) :
  has_content (input st) = true →
  ∃ st' log sent reply,
    fire (handleSubmit env net) st = (Returned tt, st', log)
    ∧ messages st' = messages st ++ [sent; reply]
    ∧ authorLabel sent = "You" ∧ showsToolCalls sent = false
    ∧ authorLabel reply = "Assistant"
    ∧ showsToolCalls reply =
        match fetch_agent net
                (queryAgent_request env (input st)
                   (or_undefined (conversationId st))) with
        | Returned (RespOk (Returned r)) =>
            match tool_calls r with
            | Some (_ :: _) => true
            | _ => false
            end
        | _ => false
        end.
Proof.
  intros Hcontent. rewrite handleSubmit_exec, trim_truthy, Hcontent.
  destruct (fetch_agent net _) as [[[r|e]|[d|e]]|e];
    eexists _, _, _, _; (split; [reflexivity|]);
    (split; [reflexivity|]); split_and!; try reflexivity.
  unfold showsToolCalls. cbn. by destruct (tool_calls r) as [[|t ts]|].
Qed.

End HandlerProperties.

Section EventLoopProperties.
Import Js Eff Api Chat Ui.

Variable env : option string.

(** Appending to an alternating chat: only the appended part matters. *)
Lemma alternating_app (l k : list ChatMessage) :
  alternating l = true → alternating (l ++ k) = alternating k.
Proof.
  revert k.
  assert (H : ∀ l k,
            (alternating l = true → alternating (l ++ k) = alternating k)
            ∧ ∀ x, alternating (x :: l) = true →
                   alternating ((x :: l) ++ k) = alternating k).
  { clear l. induction l as [|z l IH]; intros k.
    - split; [done|]. intros x Hx. discriminate Hx.
    - destruct (IH k) as [IH1 IH2]. split; [apply IH2|].
      intros x Hx. cbn in Hx. cbn [app alternating].
      destruct (isUser x), (isUser z); cbn in *; try done.
      by apply IH1. }
  intros k. apply H.
Qed.

(** Each event keeps the state settled. *)
Lemma act_settled (a : Action) (net : Net) (st : ChatState) :
  settled st → settled (act env a net st).1.
Proof.
  intros (Hload & Halt & Hid & Hstatus). destruct a as [text| | |]; cbn [act].
  - done.
  - rewrite handleSubmit_exec. destruct (truthy (trim (input st))); [|done].
    assert (Hgrow : ∀ reply cid,
      isUser reply = false →
      match cid with
      | Some id => id ≠ ""
      | None => True
      end →
      settled
        {| messages := messages st
             ++ [{| role := user; content := input st; toolCalls := None |};
                 reply];
           input := ""; isLoading := false; apiStatus := apiStatus st;
           conversationId := cid; statusMessage := statusMessage st |}).
    { intros reply cid Hreply Hcid. split_and!; cbn; try done.
      - rewrite alternating_app by done. cbn. by rewrite Hreply.
      - destruct cid as [id|]; [|done]. split; [done|].
        by destruct (messages st). }
    assert (Hheld : match conversationId st with
                    | Some id => id ≠ ""
                    | None => True
                    end) by (destruct (conversationId st); [apply Hid|done]).
    destruct (fetch_agent net _) as [[[r|e]|[d|e]]|e]; cbn [fst snd];
      try (by apply Hgrow).
    apply Hgrow; [done|].
    destruct (truthy (conversation_id r)) eqn:Hr; cbn [andb]; [|done].
    destruct (negb _); [|done]. by destruct (conversation_id r).
  - unfold fire, exec. rewrite startNewConversation_run. by split_and!.
  - rewrite checkApiHealth_exec.
    destruct (fetch_health net _) as [[[data|e]|j]|e];
      try destruct (get_property data _) as [field|e'];
      try destruct (js_truthy_opt field); by split_and!.
Qed.

Lemma acts_settled (script : list (Action * Net)) (st : ChatState) :
  settled st → settled (acts env script st).1.
Proof.
  revert st. induction script as [|[a net] rest IH]; intros st Hst; [done|].
  cbn [acts]. pose proof (act_settled a net st Hst) as H1.
  destruct (act env a net st) as [st1 log1]. specialize (IH st1 H1).
  by destruct (acts env rest st1).
Qed.

Lemma initial_settled : settled initialState.
Proof. by split_and!. Qed.

(** X9.  After any history of typing, submissions, resets and health
    polls, each handled to completion, the chat reads user, assistant,
    user, assistant, ...: every user message is followed by exactly one
    assistant message (the answer or the apology). *)
Theorem chat_alternates (script : list (Action * Net)) :
  alternating (messages (acts env script initialState).1) = true.
Proof. apply (acts_settled script initialState initial_settled). Qed.

(** X10.  After any such history, a held conversation id is a non-empty
    string and the chat it belongs to is not empty, so the New
    Conversation button is enabled whenever there is a conversation to
    delete. *)
Theorem held_id_has_chat (script : list (Action * Net)) :
  match conversationId (acts env script initialState).1 with
  | Some id =>
      id ≠ "" ∧ newConversationDisabled (acts env script initialState).1 = false
  | None => True
  end.
Proof.
  destruct (acts_settled script initialState initial_settled)
    as (_ & _ & Hid & _).
  destruct (conversationId _) as [id|]; [|done].
  destruct Hid as [Hne Hmsgs]. split; [done|].
  unfold newConversationDisabled. by destruct (messages _).
Qed.

(** X11.  After any such history nothing is loading and the status
    message is the one that belongs to the status: so the form is
    disabled exactly when the last health poll found the backend
    unreachable, the button reads "Send", and a message is shown under
    the status exactly for [error] and [warning]. *)
Theorem idle_view (script : list (Action * Net)) :
  let st := (acts env script initialState).1 in
  isLoading st = false
  ∧ submitLabel st = "Send"
  ∧ formDisabled st = match apiStatus st with error => true | _ => false end
  ∧ statusMessage st =
      match apiStatus st with
      | connecting | connected => None
      | error => Some "Cannot connect to backend API"
      | warning => Some "API key not configured. Agent functionality limited."
      end.
Proof.
  destruct (acts_settled script initialState initial_settled)
    as (Hload & _ & _ & Hstatus).
  cbv zeta. unfold submitLabel, formDisabled. rewrite Hload. by split_and!.
Qed.

(** X12.  Starting without an id, the id held after a sequence of turns
    is the id of the first answered turn whose answer carries a non-empty
    id; nothing is held while no such answer has arrived (blank inputs,
    failed requests and answers with an empty id adopt nothing). *)
Theorem held_id_is_first_adopted (script : list (string * Net))
    (st : ChatState) :
  conversationId st = None →
  conversationId (turns env script st).1 = first_adopted env script.
Proof.
  revert st. induction script as [|[text net] rest IH]; intros st Hnone.
  - exact Hnone.
  - cbn [turns first_adopted].
    assert (Hturn : conversationId (turn env text net st).1
                    = adopts env (text, net)).
    { unfold turn, adopts. rewrite handleSubmit_exec.
      cbn [typeText input conversationId fst snd]. rewrite Hnone.
      cbn [or_undefined truthy_opt negb].
      destruct (truthy (trim text)); [|exact Hnone].
      destruct (fetch_agent net _) as [[[r|e]|[d|e]]|e]; cbn; try done.
      rewrite andb_true_r. by destruct (truthy (conversation_id r)). }
    destruct (adopts env (text, net)) as [id|] eqn:Hadopt.
    + assert (Hid : id ≠ "").
      { unfold adopts in Hadopt. cbn [fst snd] in Hadopt.
        destruct (truthy (trim text)); [|done].
        destruct (fetch_agent net _) as [[[r|e]|[d|e]]|e]; try done.
        destruct (conversation_id r) eqn:Hr; cbn in Hadopt; [done|].
        by injection Hadopt as <-. }
      destruct (turn env text net st) as [st1 log1]. cbn [fst] in Hturn.
      pose proof (turns_keep_id env id rest Hid st1 Hturn) as [Hkeep _].
      by destruct (turns env rest st1).
    + destruct (turn env text net st) as [st1 log1]. cbn [fst] in Hturn.
      specialize (IH st1 Hturn). by destruct (turns env rest st1).
Qed.

(** X13.  In a sequence of turns, the requests made are exactly one
    agent request (a POST) per input with content, and nothing else: no
    request for a blank input, no retry after a failure. *)
Theorem one_request_per_turn (script : list (string * Net)) (st : ChatState) :
  let requests :=
    List.filter (λ ev, match ev with EvFetch _ => true | _ => false end)
      (turns env script st).2 in
  length requests = length (List.filter (λ t, has_content t.1) script)
  ∧ Forall (λ ev, is_request POST ev = true) requests.
Proof.
  cbv zeta. revert st.
  induction script as [|[text net] rest IH]; intros st; [by split|].
  cbn [turns List.filter fst].
  assert (Hturn :
    List.filter (λ ev, match ev with EvFetch _ => true | _ => false end)
      (turn env text net st).2
    = if has_content text
      then [EvFetch (queryAgent_request env text
                       (or_undefined (conversationId st)))]
      else []).
  { unfold turn. rewrite handleSubmit_exec, trim_truthy.
    cbn [typeText input conversationId].
    destruct (has_content text); [|done].
    by destruct (fetch_agent net _) as [[[r|e]|[d|e]]|e]. }
  destruct (turn env text net st) as [st1 log1]. cbn [snd] in Hturn.
  specialize (IH st1). destruct (turns env rest st1) as [st2 log2].
  cbn [snd] in *. rewrite List.filter_app, Hturn. destruct IH as [IHn IHp].
  destruct (has_content text); cbn [app length]; split; auto.
Qed.

End EventLoopProperties.

Section ServiceProperties.
Import Js Eff Api Chat Ui.

Variable env : option string.

(** [a || b] with a non-empty default is never empty. *)
Lemma or_else_nonempty (a : option string) (b : string) :
  b ≠ "" → or_else a b ≠ "".
Proof. intros Hb. unfold or_else. by destruct a as [[|c s]|]. Qed.

(** X14.  The delete request names its conversation: requests for
    different ids go to different URLs (the id is appended to the path as
    it is). *)
Theorem delete_request_identifies_conversation (id1 id2 : string) :
  url (deleteConversation_request env id1)
    = url (deleteConversation_request env id2) →
  id1 = id2.
Proof.
  unfold deleteConversation_request. cbn [url]. intros Heq.
  apply (inj (String.app _)) in Heq. by apply (inj (String.app _)) in Heq.
Qed.


(** X16.  deleteConversation returns normally exactly when the request
    resolves with an ok response; it does not read the body of that
    response, so an empty or unreadable body does not matter. *)
Theorem deleteConversation_returns_iff_ok (net : Net) {S : Type} (s : S)
    (id : string) :
  (∃ log, exec (deleteConversation env net id) s = (Returned tt, s, log))
  ↔ ∃ resp, fetch_delete net (deleteConversation_request env id)
              = Returned resp
            ∧ ok resp = true.
Proof.
  unfold exec. rewrite deleteConversation_exec.
  destruct (fetch_delete net _) as [[j|[d|e]]|e]; split.
  all: try (intros [log Hrun]; discriminate Hrun).
  all: try (intros (resp & [= <-] & Hok); discriminate Hok).
  all: try (intros (resp & Hresp & _); discriminate Hresp).
  - intros _. by eexists.
  - intros _. by eexists.
Qed.

(** X17.  Tool icons: only [get_weather] and [search_web] have an icon of
    their own; every other tool name, listed in the switch or not, gets
    the file icon.  Every icon rendered under a message is one of these
    three, one per tool call and in the order of the calls. *)
Theorem tool_icons (name : string) (m : ChatMessage) :
  (getToolIcon name = "/globe.svg" ↔ name = "get_weather")
  ∧ (getToolIcon name = "/window.svg" ↔ name = "search_web")
  ∧ (getToolIcon name = "/file.svg"
     ↔ name ≠ "get_weather" ∧ name ≠ "search_web")
  ∧ renderedToolIcons m
      = (λ t, getToolIcon (tool_name t)) <$> default [] (toolCalls m).
Proof.
  unfold getToolIcon.
  destruct (String.eqb_spec name "get_weather") as [->|Hw].
  { split_and!; try (split; [done|]); try done.
    - intros [H _]. done.
    - unfold renderedToolIcons, showsToolCalls.
      by destruct (toolCalls m) as [[|t ts]|]. }
  destruct (String.eqb_spec name "search_web") as [->|Hs].
  { split_and!; try (split; [done|]); try done.
    - intros [_ H]. done.
    - unfold renderedToolIcons, showsToolCalls.
      by destruct (toolCalls m) as [[|t ts]|]. }
  split_and!.
  - destruct (String.eqb name "calculate"), (String.eqb name "lookup_definition");
      split; done.
  - destruct (String.eqb name "calculate"), (String.eqb name "lookup_definition");
      split; done.
  - destruct (String.eqb name "calculate"), (String.eqb name "lookup_definition");
      split; done.
  - unfold renderedToolIcons, showsToolCalls.
    by destruct (toolCalls m) as [[|t ts]|].
Qed.

(** X18.  The base URL is never empty: it is the environment value when
    that is set and not the empty string, and http://localhost:8000
    otherwise; the three endpoints are that base followed by their
    paths. *)
Theorem base_url_fallback (query id : string) (cid : option string) :
  API_BASE_URL env ≠ ""
  ∧ API_BASE_URL env =
      match env with
      | Some (String c rest) => String c rest
      | _ => "http://localhost:8000"
      end
  ∧ url (queryAgent_request env query cid) = API_BASE_URL env +:+ "/api/agent"
  ∧ url (deleteConversation_request env id)
      = API_BASE_URL env +:+ "/api/conversations/" +:+ id
  ∧ url (checkHealth_request env) = API_BASE_URL env +:+ "/health".
Proof.
  split_and!; try reflexivity.
  - by apply or_else_nonempty.
  - unfold API_BASE_URL, or_else. by destruct env as [[|c rest]|].
Qed.

(** X19.  New Conversation deletes the conversation the chat is in: after
    a first answered turn whose answer carries a non-empty id, pressing
    New Conversation makes exactly one request, the DELETE for that
    id. *)
Theorem reset_deletes_adopted_conversation (net netReset : Net)
    (st : ChatState) (text : string) (r : AgentResponse) :
  conversationId st = None →
  has_content text = true →
  fetch_agent net (queryAgent_request env text None)
    = Returned (RespOk (Returned r)) →
  conversation_id r ≠ "" →
  List.filter (λ ev, match ev with EvFetch _ => true | _ => false end)
    (fire (startNewConversation env netReset) (turn env text net st).1).2
  = [EvFetch (deleteConversation_request env (conversation_id r))].
Proof.
  intros Hnone Htext Hfetch Hid. unfold fire, exec.
  rewrite startNewConversation_run. cbn [snd app].
  assert (Hheld : conversationId (turn env text net st).1
                  = Some (conversation_id r)).
  { apply turn_adopts_id; try done.
    intros Hblank. pose proof (trim_truthy text) as Ht.
    rewrite Hblank, Htext in Ht. discriminate Ht. }
  rewrite Hheld. destruct (conversation_id r) as [|c rest]; [done|].
  destruct (fetch_delete netReset _) as [[j|[d|e]]|e]; reflexivity.
Qed.

(** X20.  After New Conversation the next turn starts a new conversation:
    whatever was held before and whatever happened to the delete
    request, the next submission with content is sent without a
    conversation id and is the first message of the chat. *)
Theorem turn_after_reset_starts_fresh (net netReset : Net) (st : ChatState)
    (text : string) :
  has_content text = true →
  let cleared := (fire (startNewConversation env netReset) st).1.2 in
  ∃ rest reply,
    (turn env text net cleared).2
      = EvPreventDefault :: EvFetch (queryAgent_request env text None) :: rest
    ∧ body (queryAgent_request env text None)
        = Some (JObj [("query", JStr text)])
    ∧ messages (turn env text net cleared).1
        = [{| role := user; content := text; toolCalls := None |}; reply].
Proof.
  intros Htext cleared. subst cleared. unfold fire, exec.
  rewrite startNewConversation_run. cbn [fst snd]. unfold turn.
  rewrite handleSubmit_exec, trim_truthy.
  cbn [typeText input conversationId messages or_undefined]. rewrite Htext.
  destruct (fetch_agent net _) as [[[r|e]|[d|e]]|e];
    eexists _, _; (split; [reflexivity|]); split; reflexivity.
Qed.

End ServiceProperties.

Section MoreInstances.
Import Js Eff Api Chat Ui Examples MoreExamples.

Lemma handleSubmit_sends_input_verbatim_witness :
  has_content (input answered) = true
  ∧ ∃ st' req rest,
      fire (handleSubmit None (replying reply_more)) answered
        = (Returned tt, st', EvPreventDefault :: EvFetch req :: rest)
      ∧ body req
          = Some (JObj [("query", JStr " What is the weather in Tokyo? ");
                        ("conversation_id", JStr "7f3a")])
      ∧ input st' = "".
Proof.
  split; [reflexivity|].
  destruct (handleSubmit_sends_input_verbatim None (replying reply_more)
              answered eq_refl)
    as (st' & req & rest & Hrun & _ & _ & Hbody & Hin & _).
  exists st', req, rest. split; [exact Hrun|]. split; [exact Hbody|exact Hin].
Defined.

Lemma pending_submission_view_witness :
  has_content (input answered) = true
  ∧ ∃ req pending,
      exec (handleSubmit_sync None answered) answered
        = (Returned (Some req), pending, [EvPreventDefault; EvFetch req])
      ∧ formDisabled pending = true
      ∧ submitLabel pending = "Thinking...".
Proof.
  split; [reflexivity|].
  destruct (pending_submission_view None offline answered eq_refl)
    as (req & pending & Hsync & _ & _ & Hform & Hlabel & _).
  exists req, pending. split; [exact Hsync|]. split; [exact Hform|exact Hlabel].
Defined.

Lemma reply_after_reset_witness :
  has_content (input answered) = true
  ∧ ∃ log,
      submitResetReply None (replying reply_more) offline answered
      = (Returned tt,
         {| messages := [{| role := assistant;
                            content := "It is sunny in Tokyo.";
                            toolCalls := None |}];
            input := ""; isLoading := false; apiStatus := connected;
            conversationId := None; statusMessage := None |},
         log).
Proof.
  split; [reflexivity|].
  exact (reply_after_reset None (replying reply_more) offline answered eq_refl).
Defined.

Lemma tools_block_of_reply_witness :
  has_content (input answered) = true
  ∧ ∃ st' log sent reply,
      fire (handleSubmit None (replying reply_450)) answered
        = (Returned tt, st', log)
      ∧ messages st' = messages answered ++ [sent; reply]
      ∧ showsToolCalls reply = true.
Proof.
  split; [reflexivity|].
  destruct (tools_block_of_reply None (replying reply_450) answered eq_refl)
    as (st' & log & sent & reply & Hrun & Hmsgs & _ & _ & _ & Hshow).
  exists st', log, sent, reply. split; [exact Hrun|]. split; [exact Hmsgs|].
  exact Hshow.
Defined.

Lemma held_id_is_first_adopted_witness :
  let script := [("   ", replying reply_450);
                 ("Hello", offline);
                 ("Hello", replying reply_empty_id);
                 ("What is the weather?", replying reply_more);
                 ("Calculate 15 * (23 + 7)", replying reply_450)] in
  conversationId initialState = None
  ∧ conversationId (turns None script initialState).1 = Some "ffff".
Proof.
  cbv zeta. split; [reflexivity|].
  rewrite (held_id_is_first_adopted None _ initialState eq_refl).
  reflexivity.
Defined.

Lemma delete_request_identifies_conversation_witness :
  url (deleteConversation_request None "7f3a")
    = url (deleteConversation_request None "7f3a")
  ∧ "7f3a" = "7f3a".
Proof.
  split; [reflexivity|].
  apply (delete_request_identifies_conversation None "7f3a" "7f3a").
  reflexivity.
Defined.


Lemma reset_deletes_adopted_conversation_witness :
  conversationId initialState = None
  ∧ has_content "Calculate 15 * (23 + 7)" = true
  ∧ List.filter (λ ev, match ev with EvFetch _ => true | _ => false end)
      (fire (startNewConversation None delete_not_found)
         (turn None "Calculate 15 * (23 + 7)" (replying reply_450)
            initialState).1).2
    = [EvFetch (deleteConversation_request None "7f3a")].
Proof.
  split; [reflexivity|]. split; [reflexivity|].
  apply (reset_deletes_adopted_conversation None (replying reply_450)
           delete_not_found initialState "Calculate 15 * (23 + 7)" reply_450);
    [reflexivity | reflexivity | reflexivity | discriminate].
Defined.

Lemma turn_after_reset_starts_fresh_witness :
  has_content "Hello again" = true
  ∧ ∃ rest reply,
      (turn None "Hello again" offline
         (fire (startNewConversation None delete_not_found) answered).1.2).2
        = EvPreventDefault
          :: EvFetch (queryAgent_request None "Hello again" None) :: rest
      ∧ messages (turn None "Hello again" offline
                    (fire (startNewConversation None delete_not_found)
                       answered).1.2).1
        = [{| role := user; content := "Hello again"; toolCalls := None |};
           reply].
Proof.
  split; [reflexivity|].
  destruct (turn_after_reset_starts_fresh None offline delete_not_found
              answered "Hello again" eq_refl)
    as (rest & reply & Hlog & _ & Hmsgs).
  exists rest, reply. split; [exact Hlog|exact Hmsgs].
Defined.

End MoreInstances.
